(** * Loyalty financial-model service: prompt builder, response parser and
    request handler of [main.py], embedded shallowly.

    Python [str] values are sequences of Unicode code points; they are
    modelled as lists of code points ([N]), so that [str.strip] (which
    trims Unicode whitespace) and the [\uXXXX] escapes of [json.loads]
    keep their meaning.

    The classes [CostProjection], [RevenueProjection], [ROIMetrics] and
    [FinancialModel] are declared in the source and used by none of its
    functions; they have no counterpart here. *)

From Stdlib Require Import Ascii String DecimalString.
From Stdlib Require Import List NArith ZArith Bool Lia.
Import ListNotations.

Set Implicit Arguments.

(** ** Python strings *)

Module PyStr.

Abbreviation str := (list N).

(** Code point of an ASCII character. *)
Definition cp (a : ascii) : N := N_of_ascii a.

(** A string literal of the source, as a sequence of code points. *)
Definition u (s : string) : str := map cp (list_ascii_of_string s).

Definition str_eqb (a b : str) : bool :=
  if list_eq_dec N.eq_dec a b then true else false.

(** [s.startswith(m)] *)
Fixpoint startswith (m s : str) : bool :=
  match m, s with
  | [], _ => true
  | _ :: _, [] => false
  | a :: m', b :: s' => (a =? b)%N && startswith m' s'
  end.

(** [s.find(m)] counted from offset [i]: the lowest index at which [m]
    occurs, [-1] when it does not occur. *)
Fixpoint find_from (m s : str) (i : Z) : Z :=
  if startswith m s then i
  else match s with
       | [] => (-1)%Z
       | _ :: s' => find_from m s' (i + 1)
       end.

Definition find (s m : str) : Z := find_from m s 0.

(** [m in s] *)
Fixpoint contains (m s : str) : bool :=
  startswith m s ||
  match s with
  | [] => false
  | _ :: s' => contains m s'
  end.

Definition len (s : str) : Z := Z.of_nat (length s).

(** Python clamps a slice bound into [0, len]; a negative bound counts
    from the end. *)
Definition slice_bound (i n : Z) : Z :=
  if (i <? 0)%Z then Z.max 0 (i + n) else Z.min i n.

(** [s[a:b]] *)
Definition slice (s : str) (a b : Z) : str :=
  let lo := slice_bound a (len s) in
  let hi := slice_bound b (len s) in
  firstn (Z.to_nat (hi - lo)) (skipn (Z.to_nat lo) s).

(** [s[:b]] *)
Definition slice_to (s : str) (b : Z) : str := slice s 0 b.

(** The code points [str.strip()] removes: those for which
    [str.isspace] holds. *)
Definition isspace (c : N) : bool :=
  ((9 <=? c) && (c <=? 13) || (28 <=? c) && (c <=? 32)
   || (c =? 133) || (c =? 160) || (c =? 5760)
   || (8192 <=? c) && (c <=? 8202)
   || (c =? 8232) || (c =? 8233) || (c =? 8239) || (c =? 8287)
   || (c =? 12288))%N.

Fixpoint lstrip (s : str) : str :=
  match s with
  | c :: t => if isspace c then lstrip t else s
  | [] => []
  end.

Definition rstrip (s : str) : str := rev (lstrip (rev s)).

(** [s.strip()] *)
Definition strip (s : str) : str := rstrip (lstrip s).

(** [bool(s)] for an [Optional[str]]: [None] and the empty string are
    falsy. *)
Definition truthy (o : option str) : bool :=
  match o with
  | Some (_ :: _) => true
  | _ => false
  end.

(** Two decidable criteria on fixed texts, used to locate occurrences.
    [agree m s]: [m] and [s] are equal as far as both go.
    [clear_of m a]: no occurrence of [m] starts inside [a], whatever
    follows [a].  [never_prefix m b]: no non-empty end of [m] is a
    start of [b], so that no occurrence of [m] runs into a following
    [b]. *)
Fixpoint agree (m s : str) : bool :=
  match m, s with
  | a :: m', b :: s' => (a =? b)%N && agree m' s'
  | _, _ => true
  end.

Fixpoint clear_of (m a : str) : bool :=
  match a with
  | [] => true
  | _ :: a' => negb (agree m a) && clear_of m a'
  end.

Fixpoint never_prefix (m b : str) : bool :=
  match m with
  | [] => true
  | _ :: m' => negb (startswith m b) && never_prefix m' b
  end.

End PyStr.
Import PyStr.

(** ** [json.loads]

    The decoder of the Python standard library, for [str] input and the
    default options ([strict=True], no hooks): the JSON grammar, plus the
    constants [NaN], [Infinity] and [-Infinity] that Python accepts.  An
    integer literal becomes a Python [int]; a literal with a fraction or
    an exponent becomes a [float], kept here as its literal text (the
    float it denotes is [float(literal)]).  A [dict] keeps the insertion
    order of its keys, and a repeated key keeps its first position and
    its last value.

    Two limits of the interpreter make the decoder raise on a document
    of the grammar: [int] refuses a literal of more digits than
    [sys.get_int_max_str_digits()] (a [ValueError]), and each array or
    object that is open takes one level of the recursion depth that is
    left at the call (a [RecursionError]).  Both are parameters here. *)

Module Json.

#[warnings="-register-all"] Inductive json : Type :=
| JNull
| JBool (b : bool)
| JInt (z : Z)
| JFloat (literal : str)
| JStr (s : str)
| JList (items : list json)
| JDict (pairs : list (str * json)).

(** [d[k] = v] *)
Fixpoint dict_set (k : str) (v : json) (d : list (str * json))
  : list (str * json) :=
  match d with
  | [] => [(k, v)]
  | (k', v') :: d' =>
      if str_eqb k k' then (k, v) :: d' else (k', v') :: dict_set k v d'
  end.

(** [dict(pairs)] *)
Definition dict (pairs : list (str * json)) : list (str * json) :=
  fold_left (fun d kv => dict_set (fst kv) (snd kv) d) pairs [].

(** [d.get(k)] *)
Fixpoint dict_get (k : str) (d : list (str * json)) : option json :=
  match d with
  | [] => None
  | (k', v) :: d' => if str_eqb k k' then Some v else dict_get k d'
  end.

(** A text that UTF-8 can encode: it holds no surrogate code point. *)
Definition no_surrogate (s : str) : bool :=
  forallb (fun c => negb ((55296 <=? c)%N && (c <=? 57343)%N)) s.

(** A value whose JSON text UTF-8 can encode: no key and no string in
    it holds a surrogate. *)
Fixpoint encodable (v : json) : bool :=
  match v with
  | JStr s => no_surrogate s
  | JList items => forallb encodable items
  | JDict pairs =>
      forallb (fun kv => let '(k, x) := kv in no_surrogate k && encodable x)
        pairs
  | _ => true
  end.

(** The limits of the interpreter at the call of [json.loads]: the
    digit limit of [int] ([0] for none, as in Python), and the number of
    nested arrays and objects the recursion depth still allows. *)
Record Limits := {
  int_max_str_digits : N;
  recursion_budget : nat
}.

Local Open Scope N_scope.

(** JSON whitespace: space, tab, line feed, carriage return. *)
Definition is_ws (c : N) : bool :=
  (c =? 32) || (c =? 9) || (c =? 10) || (c =? 13).

Fixpoint skip_ws (s : str) : str :=
  match s with
  | c :: t => if is_ws c then skip_ws t else s
  | [] => []
  end.

Definition is_digit (c : N) : bool := (48 <=? c) && (c <=? 57).

(** Longest prefix whose code points satisfy [f], and the rest. *)
Fixpoint span (f : N -> bool) (s : str) : str * str :=
  match s with
  | c :: t => if f c then let '(a, b) := span f t in (c :: a, b) else ([], s)
  | [] => ([], [])
  end.

Definition int_of_digits (ds : str) : Z :=
  fold_left (fun acc c => (10 * acc + Z.of_N (c - 48))%Z) ds 0%Z.

(** An optional minus sign, then either a single zero or a non-zero
    digit followed by digits: sign, digits and rest. *)
Definition scan_int (s : str) : option (bool * str * str) :=
  let '(neg, t) :=
    match s with
    | c :: t => if c =? cp "-" then (true, t) else (false, s)
    | [] => (false, s)
    end in
  match t with
  | c :: t' =>
      if c =? cp "0" then Some (neg, [c], t')
      else if is_digit c then
        let '(ds, r) := span is_digit t' in Some (neg, c :: ds, r)
      else None
  | [] => None
  end.

(** An optional fraction: a dot and at least one digit. *)
Definition scan_frac (s : str) : str * str :=
  match s with
  | c :: d :: t =>
      if (c =? cp ".") && is_digit d then
        let '(ds, r) := span is_digit t in (c :: d :: ds, r)
      else ([], s)
  | _ => ([], s)
  end.

(** An optional exponent: [e] or [E], an optional sign, at least one
    digit. *)
Definition scan_exp (s : str) : str * str :=
  match s with
  | e :: c :: t =>
      if (e =? cp "e") || (e =? cp "E") then
        if is_digit c then
          let '(ds, r) := span is_digit t in (e :: c :: ds, r)
        else if (c =? cp "+") || (c =? cp "-") then
          match t with
          | d :: t' =>
              if is_digit d then
                let '(ds, r) := span is_digit t' in (e :: c :: d :: ds, r)
              else ([], s)
          | [] => ([], s)
          end
        else ([], s)
      else ([], s)
  | _ => ([], s)
  end.

(** [int] converts a literal of [ds] digits when there is no limit or
    the digits are no more than the limit. *)
Definition digits_ok (maxd : N) (ds : str) : bool :=
  (maxd =? 0) || (N.of_nat (length ds) <=? maxd).

Definition parse_number (maxd : N) (s : str) : option (json * str) :=
  match scan_int s with
  | None => None
  | Some (neg, ds, r1) =>
      let '(frac, r2) := scan_frac r1 in
      let '(exp, r3) := scan_exp r2 in
      match frac, exp with
      | [], [] =>
          if digits_ok maxd ds then
            Some (JInt (if neg then - int_of_digits ds
                        else int_of_digits ds)%Z,
                  r3)
          else None
      | _, _ =>
          Some (JFloat ((if neg then [cp "-"] else []) ++ ds ++ frac ++ exp),
                r3)
      end
  end.

Definition hexval (c : N) : option N :=
  if is_digit c then Some (c - 48)
  else if (97 <=? c) && (c <=? 102) then Some (c - 87)
  else if (65 <=? c) && (c <=? 70) then Some (c - 55)
  else None.

(** Four hexadecimal digits: their value and the rest. *)
Definition decode_uXXXX (s : str) : option (N * str) :=
  match s with
  | a :: b :: c :: d :: r =>
      match hexval a, hexval b, hexval c, hexval d with
      | Some x, Some y, Some z, Some w =>
          Some (((x * 16 + y) * 16 + z) * 16 + w, r)
      | _, _, _, _ => None
      end
  | _ => None
  end.

(** The one-letter escapes. *)
Definition unescape (e : N) : option N :=
  if e =? 34 then Some 34
  else if e =? 92 then Some 92
  else if e =? cp "/" then Some 47
  else if e =? cp "b" then Some 8
  else if e =? cp "f" then Some 12
  else if e =? cp "n" then Some 10
  else if e =? cp "r" then Some 13
  else if e =? cp "t" then Some 9
  else None.

Definition push {A} (a : A) (o : option (list A * str))
  : option (list A * str) :=
  match o with
  | Some (l, r) => Some (a :: l, r)
  | None => None
  end.

Definition high_surrogate (c : N) : bool := (55296 <=? c) && (c <=? 56319).
Definition low_surrogate (c : N) : bool := (56320 <=? c) && (c <=? 57343).
Definition join_surrogates (hi lo : N) : N :=
  65536 + N.lor (N.shiftl (hi - 55296) 10) (lo - 56320).

(** One step of the scan of a string body (the text after the opening
    quote): the decoded content and what follows the closing quote.
    [more] scans the rest of the body. *)
Definition scan_step (more : str -> option (str * str)) (s : str)
  : option (str * str) :=
  match s with
  | [] => None
  | c :: t =>
      if c =? 34 then Some ([], t)
      else if c =? 92 then
        match t with
        | [] => None
        | e :: t' =>
            if e =? cp "u" then
              match decode_uXXXX t' with
              | None => None
              | Some (uni, r) =>
                  match r with
                  | b :: x :: r' =>
                      if high_surrogate uni && (b =? 92) && (x =? cp "u")
                      then
                        match decode_uXXXX r' with
                        | None => None
                        | Some (uni2, r2) =>
                            if low_surrogate uni2
                            then push (join_surrogates uni uni2) (more r2)
                            else push uni (more r)
                        end
                      else push uni (more r)
                  | _ => push uni (more r)
                  end
              end
            else
              match unescape e with
              | Some ch => push ch (more t')
              | None => None
              end
        end
      else if c <? 32 then None
      else push c (more t)
  end.

Fixpoint scanstring (n : nat) (s : str) : option (str * str) :=
  match n with
  | O => None
  | S n' => scan_step (scanstring n') s
  end.

(** A value that is neither a string, an object nor an array: one of
    the three JSON constants, a number, or one of Python's float
    constants. *)
Definition atom_of (maxd : N) (s : str) : option (json * str) :=
  if startswith (u "null") s then Some (JNull, skipn 4 s)
  else if startswith (u "true") s then Some (JBool true, skipn 4 s)
  else if startswith (u "false") s then Some (JBool false, skipn 5 s)
  else
    match parse_number maxd s with
    | Some r => Some r
    | None =>
        if startswith (u "NaN") s
        then Some (JFloat (u "NaN"), skipn 3 s)
        else if startswith (u "Infinity") s
        then Some (JFloat (u "Infinity"), skipn 8 s)
        else if startswith (u "-Infinity") s
        then Some (JFloat (u "-Infinity"), skipn 9 s)
        else None
    end.

(** One value at the head of [s], and what follows it; [scan],
    [members] and [items] read a string body, the members of an object
    and the items of an array.  [room] tells whether the recursion
    depth allows one more array or object to be opened. *)
Definition value_of (maxd : N) (room : bool)
    (scan : str -> option (str * str))
    (members : str -> option (list (str * json) * str))
    (items : str -> option (list json * str)) (s : str)
  : option (json * str) :=
  match s with
  | [] => None
  | c :: t =>
      if c =? 34 then
        match scan t with
        | Some (x, r) => Some (JStr x, r)
        | None => None
        end
      else if c =? cp "{" then
        if room then
          match skip_ws t with
          | c' :: r =>
              if c' =? cp "}" then Some (JDict [], r)
              else
                match members (c' :: r) with
                | Some (ps, r') => Some (JDict (dict ps), r')
                | None => None
                end
          | [] => None
          end
        else None
      else if c =? cp "[" then
        if room then
          match skip_ws t with
          | c' :: r =>
              if c' =? cp "]" then Some (JList [], r)
              else
                match items (c' :: r) with
                | Some (vs, r') => Some (JList vs, r')
                | None => None
                end
          | [] => None
          end
        else None
      else atom_of maxd s
  end.

(** The members of an object from its first key on, up to and including
    the closing brace. *)
Definition members_of (scan : str -> option (str * str))
    (value : str -> option (json * str))
    (members : str -> option (list (str * json) * str)) (s : str)
  : option (list (str * json) * str) :=
  match s with
  | c :: t =>
      if c =? 34 then
        match scan t with
        | Some (k, r1) =>
            match skip_ws r1 with
            | c1 :: r2 =>
                if c1 =? cp ":" then
                  match value (skip_ws r2) with
                  | Some (v, r3) =>
                      match skip_ws r3 with
                      | c3 :: r4 =>
                          if c3 =? cp "}" then Some ([(k, v)], r4)
                          else if c3 =? cp "," then
                            push (k, v) (members (skip_ws r4))
                          else None
                      | [] => None
                      end
                  | None => None
                  end
                else None
            | [] => None
            end
        | None => None
        end
      else None
  | [] => None
  end.

(** The items of an array from its first item on, up to and including
    the closing bracket. *)
Definition items_of (value : str -> option (json * str))
    (items : str -> option (list json * str)) (s : str)
  : option (list json * str) :=
  match value s with
  | Some (v, r1) =>
      match skip_ws r1 with
      | c :: r2 =>
          if c =? cp "]" then Some ([v], r2)
          else if c =? cp "," then push v (items (skip_ws r2))
          else None
      | [] => None
      end
  | None => None
  end.

(** The three readers, tied together.  The fuel [n] bounds the depth of
    the calls; [loads] supplies more than the length of the text.  [d]
    is the number of arrays and objects that may still be opened, one
    inside the other. *)
Fixpoint parse_value (maxd : N) (n d : nat) (s : str) {struct n}
  : option (json * str) :=
  match n with
  | O => None
  | S n' =>
      value_of maxd (match d with O => false | S _ => true end)
        (scanstring n') (parse_members maxd n' (pred d))
        (parse_items maxd n' (pred d)) s
  end
with parse_members (maxd : N) (n d : nat) (s : str) {struct n}
  : option (list (str * json) * str) :=
  match n with
  | O => None
  | S n' =>
      members_of (scanstring n') (parse_value maxd n' d)
        (parse_members maxd n' d) s
  end
with parse_items (maxd : N) (n d : nat) (s : str) {struct n}
  : option (list json * str) :=
  match n with
  | O => None
  | S n' => items_of (parse_value maxd n' d) (parse_items maxd n' d) s
  end.

(** [json.loads(s)] under the limits [lim]; [None] stands for the
    exception raised ([JSONDecodeError], or the [ValueError] and
    [RecursionError] of the limits). *)
Definition loads (lim : Limits) (s : str) : option json :=
  let s1 := skip_ws s in
  match parse_value (int_max_str_digits lim) (S (length s1))
          (recursion_budget lim) s1 with
  | Some (v, r) =>
      match skip_ws r with
      | [] => Some v
      | _ :: _ => None
      end
  | None => None
  end.

(** Two notions for the statements below: a text made of whitespace in
    the sense of [str.isspace] only, and a reader's result with [w]
    appended to what is left of the input. *)
Definition blank (w : str) : Prop := Forall (fun c => isspace c = true) w.

Definition shift {A} (w : str) (o : option (A * str)) : option (A * str) :=
  match o with
  | Some (a, r) => Some (a, r ++ w)
  | None => None
  end.

(** Whatever the reader [f] reads, it reads at least one code point,
    and the reader [f'] reads the same when no more than [k] code points
    are read. *)
Definition reads_within {A} (k : nat) (f f' : str -> option (A * str))
  : Prop :=
  forall s a r, f s = Some (a, r) ->
    (length r < length s)%nat
    /\ ((length s - length r <= k)%nat -> f' s = Some (a, r)).

End Json.

(** ** The service *)

Module Service.
Import Json.

Definition nl : str := [10%N].

(** A literal of the source that holds double quotes, written with a
    backquote in place of each double quote. *)
Definition uq (s : string) : str :=
  map (fun c => if (c =? 96)%N then 34%N else c) (u s).

Record PreviousData := {
  loyalty_program_design : option str
}.

Record CurrentPromptData := {
  existing_generated_output : str;
  user_feedback : str
}.

Record FinancialModelRequest := {
  company_name : str;
  previous_data : option PreviousData;
  current_prompt_data : option CurrentPromptData;
  other_input_data : option (list (str * json))
}.

Record FinancialModelResponse := {
  generated_output : str;
  structured_data : list (str * json)
}.

(** The body of a POST to [/generate]: the JSON value the framework
    decodes from the request. *)
Definition RequestBody : Type := json.

(** [body[k]] of a body that is an object. *)
Definition body_field (k : string) (b : RequestBody) : option json :=
  match b with
  | JDict d => dict_get (u k) d
  | _ => None
  end.

(** An [Optional[str]] field: absent or [null], or a string. *)
Definition optional_str (o : option json) : option (option str) :=
  match o with
  | None | Some JNull => Some None
  | Some (JStr s) => Some (Some s)
  | Some _ => None
  end.

(** [previous_data: Optional[PreviousData] = None] *)
Definition validate_previous_data (o : option json)
  : option (option PreviousData) :=
  match o with
  | None | Some JNull => Some None
  | Some (JDict d) =>
      match optional_str (dict_get (u "loyalty_program_design") d) with
      | Some design => Some (Some {| loyalty_program_design := design |})
      | None => None
      end
  | Some _ => None
  end.

(** [current_prompt_data: Optional[CurrentPromptData] = None]; both
    fields of a [CurrentPromptData] are required strings. *)
Definition validate_current_prompt_data (o : option json)
  : option (option CurrentPromptData) :=
  match o with
  | None | Some JNull => Some None
  | Some (JDict d) =>
      match dict_get (u "existing_generated_output") d,
            dict_get (u "user_feedback") d with
      | Some (JStr output), Some (JStr feedback) =>
          Some (Some {| existing_generated_output := output;
                        user_feedback := feedback |})
      | _, _ => None
      end
  | Some _ => None
  end.

(** [other_input_data: Optional[Dict] = {}] *)
Definition validate_other_input_data (o : option json)
  : option (option (list (str * json))) :=
  match o with
  | None => Some (Some [])
  | Some JNull => Some None
  | Some (JDict d) => Some (Some d)
  | Some _ => None
  end.

(** Validation of the body against [FinancialModelRequest], as the
    framework does it before the handler runs; [None] stands for its
    422 answer.  The body must be an object; [company_name: str] has no
    default, so it must be there and be a string (any string, the empty
    one too); each optional part must be absent, [null] or of its
    declared type; other keys are ignored.  Types are checked without
    conversion (a number is not a string), as the validation library
    does from its version 2 on. *)
Definition validate_request (b : RequestBody) : option FinancialModelRequest :=
  match b with
  | JDict _ =>
      match body_field "company_name" b,
            validate_previous_data (body_field "previous_data" b),
            validate_current_prompt_data
              (body_field "current_prompt_data" b),
            validate_other_input_data (body_field "other_input_data" b)
      with
      | Some (JStr name), Some previous, Some current, Some other =>
          Some {| company_name := name;
                  previous_data := previous;
                  current_prompt_data := current;
                  other_input_data := other |}
      | _, _, _, _ => None
      end
  | _ => None
  end.

Inductive role := system | user.

(** The arguments of [client.chat.completions.create]. *)
Record ChatRequest := {
  model : str;
  messages : list (role * str);
  temperature : str;  (* the decimal literal of the source *)
  max_tokens : N
}.

(** What the call to the completion provider does: it raises an
    exception [e] (with [str(e)] the message), or returns a response
    whose [choices[0].message.content] is a string or [None]. *)
Inductive completion :=
| Raised (message : str)
| Returned (content : option str).

(** What the service takes from its environment: the completion
    provider behind [client], the limits of the interpreter when
    [json.loads] is called, and the text [str(e)] of the exception that
    [json.loads] raises on a document it rejects. *)
Record Runtime := {
  client_create : ChatRequest -> completion;
  json_limits : Limits;
  decode_error_str : str -> str
}.

(** The exceptions the service raises itself. *)
Inductive exception :=
| HTTPException (status_code : N) (detail : str).

(** [str(n)] for a non-negative [int]. *)
Definition str_of_N (n : N) : str :=
  u (DecimalString.NilZero.string_of_uint (N.to_uint n)).

(** [str(e)]; an [HTTPException] prints as the framework defines it,
    [f"{self.status_code}: {self.detail}"]. *)
Definition str_of_exception (e : exception) : str :=
  match e with
  | HTTPException c d => str_of_N c ++ u ": " ++ d
  end.

Definition construct_system_prompt : str :=
  uq "
You are an expert in loyalty program financial modeling and ROI analysis. Create detailed 
financial projections that include implementation costs, revenue uplift, and ROI metrics. Consider:

1. Cost Structure
   - Technology implementation
   - Program administration
   - Rewards and redemption costs
   - Marketing and communication

2. Revenue Impact
   - Increased purchase frequency
   - Higher average transaction value
   - Improved retention rates
   - New customer acquisition

3. ROI Analysis
   - Payback period
   - Net present value
   - Internal rate of return
   - Benefit-cost ratio

Provide your response in two parts:
1. A detailed explanation in natural language
2. A structured JSON object with this exact schema:
{
    `financial_model`: {
        `summary`: `Brief overview of financial projections`,
        `total_investment`: 1000000.00,
        `costs`: [
            {
                `category`: `Technology`,
                `year_1`: 500000.00,
                `year_2`: 100000.00,
                `year_3`: 100000.00,
                `description`: `Description of costs`,
                `assumptions`: [`assumption1`, `assumption2`]
            }
        ],
        `revenue_uplift`: [
            {
                `category`: `Increased Frequency`,
                `year_1`: 200000.00,
                `year_2`: 400000.00,
                `year_3`: 600000.00,
                `description`: `Description of impact`,
                `assumptions`: [`assumption1`, `assumption2`]
            }
        ],
        `roi_metrics`: {
            `payback_period`: `18 months`,
            `net_present_value`: 1500000.00,
            `irr`: 25.5,
            `benefit_cost_ratio`: 2.5,
            `key_assumptions`: [`assumption1`, `assumption2`]
        },
        `sensitivity_analysis`: [`factor1`, `factor2`],
        `risk_factors`: [`risk1`, `risk2`]
    }
}

Separate the two parts with [JSON_START] and [JSON_END] markers.
".

(** [f"{x}"] for an [Optional[str]]. *)
Definition fmt (o : option str) : str :=
  match o with
  | Some s => s
  | None => u "None"
  end.

Definition construct_user_prompt (company_name : str)
    (program_design existing_output feedback : option str) : str :=
  let prompt :=
    u "Please create a financial model for " ++ company_name
      ++ u "'s loyalty program." in
  let prompt :=
    if truthy program_design
    then prompt ++ nl ++ nl ++ u "Consider this program design: "
           ++ fmt program_design
    else prompt in
  let prompt :=
    if truthy existing_output && truthy feedback
    then prompt ++ nl ++ nl ++ nl ++ u "Previous financial model: "
           ++ fmt existing_output ++ nl ++ nl
           ++ u "Please refine the model based on this feedback: "
           ++ fmt feedback ++ nl
    else prompt in
  prompt.

(** The request handler's reading of the optional parts of a request. *)
Definition program_design_of (request : FinancialModelRequest) : option str :=
  match previous_data request with
  | Some p => loyalty_program_design p
  | None => None
  end.

Definition existing_output_of (request : FinancialModelRequest)
  : option str :=
  match current_prompt_data request with
  | Some c => Some (existing_generated_output c)
  | None => None
  end.

Definition feedback_of (request : FinancialModelRequest) : option str :=
  match current_prompt_data request with
  | Some c => Some (user_feedback c)
  | None => None
  end.

Definition start_marker : str := u "[JSON_START]".
Definition end_marker : str := u "[JSON_END]".

(** The text handed to [json.loads]. *)
Definition json_str (text : str) : str :=
  strip (slice text (find text start_marker + len start_marker)
                    (find text end_marker)).

Definition extract_json_from_text (rt : Runtime) (text : str)
  : exception + json :=
  match loads (json_limits rt) (json_str text) with
  | Some v => inr v
  | None =>
      inl (HTTPException 500
             (u "Failed to parse structured data from response: "
                ++ decode_error_str rt (json_str text)))
  end.

Definition chat_request (company_name : str)
    (program_design existing_output feedback : option str) : ChatRequest :=
  {| model := u "gpt-4";
     messages :=
       [(system, construct_system_prompt);
        (user, construct_user_prompt company_name program_design
                 existing_output feedback)];
     temperature := u "0.7";
     max_tokens := 2500 |}.

(** Lines 181 to 185: the two parts taken from the completion text. *)
Definition parse_completion (rt : Runtime) (full_response : str)
  : exception + (str * json) :=
  let analysis :=
    strip (slice_to full_response (find full_response (u "[JSON_START]"))) in
  match extract_json_from_text rt full_response with
  | inl e => inl e
  | inr structured_data => inr (analysis, structured_data)
  end.

(** The result, and the provider calls made on the way. *)
Definition generate_financial_model (rt : Runtime) (company_name : str)
    (program_design existing_output feedback : option str)
  : (exception + (str * json)) * list ChatRequest :=
  let call :=
    chat_request company_name program_design existing_output feedback in
  (match client_create rt call with
   | Raised message => inl (HTTPException 500 message)
   | Returned None =>
       inl (HTTPException 500
              (u "'NoneType' object has no attribute 'find'"))
   | Returned (Some full_response) =>
       match parse_completion rt full_response with
       | inl e => inl (HTTPException 500 (str_of_exception e))
       | inr r => inr r
       end
   end, [call]).

(** What the framework answers: status 200 for a returned model, which
    it sends encoded as JSON (a float that is a NaN or an infinity is
    written [null] there); the status and detail of a raised
    [HTTPException]; status 422 for a body that fails validation; status
    500 for any other exception. *)
Inductive http_response :=
| OK200 (body : FinancialModelResponse)
| HTTPError (status : N) (detail : str)
| UnprocessableEntity422
| InternalServerError500.

Definition status_of (r : http_response) : N :=
  match r with
  | OK200 _ => 200
  | HTTPError c _ => c
  | UnprocessableEntity422 => 422
  | InternalServerError500 => 500
  end.

(** The handler of [POST /generate], on a validated request.  The
    response model declares [structured_data: Dict]: a parsed value that
    is not an object fails its validation, an exception the handler does
    not catch.  A response that holds a surrogate code point cannot be
    encoded, an exception too. *)
Definition generate_model (rt : Runtime) (request : FinancialModelRequest)
  : http_response * list ChatRequest :=
  let program_design := program_design_of request in
  let existing_output := existing_output_of request in
  let feedback := feedback_of request in
  let '(result, calls) :=
    generate_financial_model rt (company_name request) program_design
      existing_output feedback in
  (match result with
   | inl (HTTPException c d) => HTTPError c d
   | inr (generated_text, JDict d) =>
       if no_surrogate generated_text && encodable (JDict d)
       then OK200 {| generated_output := generated_text;
                     structured_data := d |}
       else InternalServerError500
   | inr (_, _) => InternalServerError500
   end, calls).

(** The endpoint: validation of the body, then the handler. *)
Definition post_generate (rt : Runtime) (b : RequestBody)
  : http_response * list ChatRequest :=
  match validate_request b with
  | None => (UnprocessableEntity422, [])
  | Some request => generate_model rt request
  end.

(** *** Vocabulary of the properties *)

(** The user instruction the handler builds for a request. *)
Definition user_instruction (request : FinancialModelRequest) : str :=
  construct_user_prompt (company_name request) (program_design_of request)
    (existing_output_of request) (feedback_of request).

(** The opening sentence, and the two clauses the builder can append. *)
Definition opening (name : str) : str :=
  u "Please create a financial model for " ++ name
    ++ u "'s loyalty program.".

Definition design_clause (design : str) : str :=
  nl ++ nl ++ u "Consider this program design: " ++ design.

Definition refinement_clause (output feedback : str) : str :=
  nl ++ nl ++ nl ++ u "Previous financial model: " ++ output ++ nl ++ nl
    ++ u "Please refine the model based on this feedback: " ++ feedback
    ++ nl.


(** The limits of an interpreter with its defaults, called from a
    handler: 4300 digits, and some nine hundred levels of recursion
    left. *)
Definition default_limits : Limits :=
  {| int_max_str_digits := 4300; recursion_budget := 900 |}.

(** A runtime whose provider is mocked to return a fixed text, and
    whose decoder says [message] when it rejects a document. *)
Definition mock_runtime_saying (text : str) (message : string) : Runtime :=
  {| client_create := fun _ => Returned (Some text);
     json_limits := default_limits;
     decode_error_str := fun _ => u message |}.

Definition mock_runtime (text : str) : Runtime :=
  mock_runtime_saying text "Expecting value: line 1 column 1 (char 0)".

(** The body [{company_name: name}]. *)
Definition body_of_name (name : str) : RequestBody :=
  JDict [(u "company_name", JStr name)].

End Service.
Import Json Service.

(** ** Facts on strings *)

Module PyStrFacts.

Lemma isspace_range (c : N) :
  isspace c = true -> (c <= 32 \/ 133 <= c)%N.
Proof.
  unfold isspace. intros H.
  repeat (apply orb_prop in H; destruct H as [H | H]);
    try (apply andb_prop in H; destruct H as [H1 H2];
         apply N.leb_le in H1; apply N.leb_le in H2);
    try apply N.eqb_eq in H; lia.
Qed.

(** *** Search *)

Lemma startswith_app (m r : str) : startswith m (m ++ r) = true.
Proof.
  induction m as [|a m IH]; [reflexivity|]. simpl.
  now rewrite N.eqb_refl.
Qed.

(** A pattern that does not hold [c] cannot reach past a [c]. *)
Lemma startswith_app_stop (m x y : str) (c : N) :
  ~ In c m -> startswith m (x ++ c :: y) = startswith m x.
Proof.
  revert x. induction m as [|a m IH]; intros x Hc; [reflexivity|].
  destruct x as [|b x]; simpl.
  - replace (a =? c)%N with false; [reflexivity|].
    symmetry. apply N.eqb_neq. intros ->. apply Hc. now left.
  - rewrite IH; [reflexivity|]. intros H. apply Hc. now right.
Qed.

Lemma find_from_here (m s : str) (i : Z) :
  startswith m s = true -> find_from m s i = i.
Proof. intros H. destruct s; simpl; now rewrite H. Qed.

Section UniqueHead.

(** A pattern whose first code point occurs nowhere else in it, as both
    markers are: an occurrence cannot straddle the start of another. *)
Variable c : N.
Variable m' : str.
Hypothesis Hc : ~ In c m'.

Lemma find_from_skip (x y : str) (i : Z) :
  contains (c :: m') x = false ->
  find_from (c :: m') (x ++ c :: y) i
  = find_from (c :: m') (c :: y) (i + len x).
Proof.
  revert i. induction x as [|b x IH]; intros i H.
  - unfold len. simpl (Z.of_nat _). now rewrite Z.add_0_r.
  - cbn [contains] in H. apply orb_false_elim in H. destruct H as [H1 H2].
    replace (i + len (b :: x))%Z with (i + 1 + len x)%Z
      by (unfold len; cbn [length]; lia).
    rewrite <- IH by assumption.
    cbn [app find_from].
    replace (startswith (c :: m') (b :: x ++ c :: y)) with false;
      [reflexivity|].
    rewrite <- H1. cbn [startswith].
    now rewrite startswith_app_stop.
Qed.

Lemma contains_skip (x y : str) :
  contains (c :: m') (x ++ c :: y)
  = contains (c :: m') x || contains (c :: m') (c :: y).
Proof.
  induction x as [|b x IH]; [reflexivity|].
  cbn [app contains]. rewrite IH, orb_assoc. f_equal. f_equal.
  cbn [startswith]. now rewrite startswith_app_stop.
Qed.

End UniqueHead.

Lemma find_from_bounds (m s : str) (i : Z) :
  (if contains m s then (i <= find_from m s i < i + len s + 1)%Z
   else find_from m s i = (-1)%Z).
Proof.
  revert i. induction s as [|b s IH]; intros i.
  - unfold len. simpl. destruct (startswith m []); simpl; lia.
  - cbn [contains find_from]. destruct (startswith m (b :: s)).
    + unfold len. cbn [orb length]. lia.
    + cbn [orb]. specialize (IH (i + 1)%Z).
      destruct (contains m s); unfold len in *; cbn [length]; lia.
Qed.

Lemma contains_here (m s : str) :
  startswith m s = true -> contains m s = true.
Proof. intros H. destruct s; simpl; now rewrite H. Qed.

Lemma contains_nil (s : str) : contains [] s = true.
Proof. now apply contains_here. Qed.

Lemma contains_mid (m x y : str) : contains m (x ++ m ++ y) = true.
Proof.
  induction x as [|b x IH].
  - cbn [app]. apply contains_here. apply startswith_app.
  - cbn [app contains]. rewrite IH. apply orb_true_r.
Qed.

Lemma contains_app_r (m a z : str) :
  contains m z = true -> contains m (a ++ z) = true.
Proof.
  intros H. induction a as [|b a IH]; [assumption|].
  cbn [app contains]. rewrite IH. apply orb_true_r.
Qed.

Lemma contains_self_app (m y : str) : contains m (m ++ y) = true.
Proof. apply (contains_mid m [] y). Qed.

Lemma contains_refl (m : str) : contains m m = true.
Proof. rewrite <- (app_nil_r m) at 2. apply contains_self_app. Qed.

Lemma startswith_agree (m a z : str) :
  startswith m (a ++ z) = true -> agree m a = true.
Proof.
  revert a. induction m as [|c m IH]; intros a H; [reflexivity|].
  destruct a as [|b a]; [reflexivity|]. simpl in *.
  apply andb_prop in H. destruct H as [H1 H2].
  now rewrite H1, (IH a).
Qed.

Lemma contains_clear_left (m a y : str) :
  clear_of m a = true -> contains m (a ++ y) = contains m y.
Proof.
  induction a as [|b a IH]; intros H; [reflexivity|].
  cbn [clear_of] in H. apply andb_prop in H. destruct H as [H1 H2].
  cbn [app contains]. rewrite (IH H2).
  destruct (startswith m (b :: a ++ y)) eqn:E; [|reflexivity].
  apply (startswith_agree m (b :: a) y) in E. rewrite E in H1. discriminate.
Qed.

Lemma find_from_clear_left (m a y : str) (i : Z) :
  clear_of m a = true ->
  find_from m (a ++ y) i = find_from m y (i + len a).
Proof.
  revert i. induction a as [|b a IH]; intros i H.
  - unfold len. simpl (Z.of_nat _). now rewrite Z.add_0_r.
  - cbn [clear_of] in H. apply andb_prop in H. destruct H as [H1 H2].
    replace (i + len (b :: a))%Z with (i + 1 + len a)%Z
      by (unfold len; cbn [length]; lia).
    rewrite <- (IH _ H2). cbn [app find_from].
    destruct (startswith m (b :: a ++ y)) eqn:E; [|reflexivity].
    apply (startswith_agree m (b :: a) y) in E. rewrite E in H1.
    discriminate.
Qed.

Lemma startswith_never (m b x : str) :
  never_prefix m b = true -> startswith m (x ++ b) = startswith m x.
Proof.
  revert x. induction m as [|a m IH]; intros x H; [reflexivity|].
  cbn [never_prefix] in H. apply andb_prop in H. destruct H as [H1 H2].
  destruct x as [|c x].
  - cbn [app]. apply negb_true_iff in H1. now rewrite H1.
  - cbn [app startswith]. now rewrite IH.
Qed.

Lemma contains_never_right (m b x : str) :
  never_prefix m b = true -> contains m b = false ->
  contains m (x ++ b) = contains m x.
Proof.
  intros H1 H2. induction x as [|c x IH].
  - cbn [app]. rewrite H2. destruct m; [|reflexivity].
    rewrite contains_nil in H2. discriminate.
  - cbn [app contains]. rewrite <- IH. f_equal.
    change (c :: x ++ b) with ((c :: x) ++ b). now apply startswith_never.
Qed.

(** *** Slices *)

Lemma len_app (a b : str) : len (a ++ b) = (len a + len b)%Z.
Proof. unfold len. rewrite length_app. lia. Qed.

Lemma len_nonneg (a : str) : (0 <= len a)%Z.
Proof. unfold len. lia. Qed.

Lemma slice_middle (x y z : str) :
  slice (x ++ y ++ z) (len x) (len x + len y) = y.
Proof.
  unfold slice, slice_bound. rewrite !len_app.
  pose proof (len_nonneg x). pose proof (len_nonneg y).
  pose proof (len_nonneg z).
  destruct (Z.ltb_spec (len x) 0); [lia|].
  destruct (Z.ltb_spec (len x + len y) 0); [lia|].
  rewrite !Z.min_l by lia.
  replace (len x + len y - len x)%Z with (len y) by lia.
  unfold len. rewrite !Nat2Z.id.
  rewrite skipn_app, Nat.sub_diag, skipn_all. simpl.
  rewrite firstn_app, Nat.sub_diag, firstn_all. simpl.
  now rewrite app_nil_r.
Qed.

Lemma slice_to_prefix (x z : str) : slice_to (x ++ z) (len x) = x.
Proof.
  unfold slice_to. change 0%Z with (len []).
  apply (slice_middle [] x z).
Qed.

(** *** Trimming *)

Lemma lstrip_split (s : str) :
  exists b, Forall (fun c => isspace c = true) b /\ s = b ++ lstrip s.
Proof.
  induction s as [|c s (b & Hb & E)]; [now exists []|].
  simpl. destruct (isspace c) eqn:Hc.
  - exists (c :: b). split; [now constructor|]. simpl. now rewrite <- E.
  - now exists [].
Qed.

Lemma rstrip_split (s : str) :
  exists b, Forall (fun c => isspace c = true) b /\ s = rstrip s ++ b.
Proof.
  destruct (lstrip_split (rev s)) as (b & Hb & E).
  exists (rev b). split; [now apply Forall_rev|].
  unfold rstrip. rewrite <- rev_app_distr, <- E. now rewrite rev_involutive.
Qed.

Lemma lstrip_head (s t : str) (c : N) :
  isspace c = false -> lstrip (c :: t) = c :: t.
Proof. intros H. simpl. now rewrite H. Qed.

End PyStrFacts.

(** ** Facts on the JSON decoder *)

Module JsonFacts.
Import Json PyStrFacts.
Local Open Scope N_scope.

Ltac norm_cp :=
  repeat match goal with
  | |- context [cp ?a] =>
      let v := eval vm_compute in (cp a) in change (cp a) with v
  end.

Lemma eqb_out (c k : N) :
  (c <= 32 \/ 133 <= c) -> 33 <= k <= 132 -> (c =? k) = false.
Proof. intros. apply N.eqb_neq. lia. Qed.

Lemma is_digit_out (c : N) : (c <= 32 \/ 133 <= c) -> is_digit c = false.
Proof.
  intros H. unfold is_digit.
  destruct (N.leb_spec 48 c); destruct (N.leb_spec c 57); simpl; auto; lia.
Qed.

Lemma hexval_out (c : N) : (c <= 32 \/ 133 <= c) -> hexval c = None.
Proof.
  intros H. unfold hexval. rewrite is_digit_out by assumption.
  destruct (N.leb_spec 97 c); destruct (N.leb_spec c 102);
    destruct (N.leb_spec 65 c); destruct (N.leb_spec c 70); simpl; auto; lia.
Qed.

Lemma unescape_out (c : N) : (c <= 32 \/ 133 <= c) -> unescape c = None.
Proof.
  intros H. unfold unescape. norm_cp.
  repeat rewrite (@eqb_out c) by (assumption || lia). reflexivity.
Qed.

Ltac out :=
  norm_cp;
  repeat first
    [ rewrite is_digit_out by assumption
    | rewrite hexval_out by assumption
    | rewrite unescape_out by assumption
    | match goal with
      | R : (?c <= 32 \/ 133 <= ?c) |- context [(?c =? ?k)] =>
          rewrite (@eqb_out c k R) by lia
      end ];
  simpl.

Ltac case_if :=
  match goal with
  | |- context [if ?b then _ else _] => destruct b eqn:?; cbv iota
  end.

Section Trailing.

Variable w : str.
Hypothesis Hw : blank w.

Lemma blank_cases :
  w = [] \/ exists c w', w = c :: w' /\ (c <= 32 \/ 133 <= c) /\ blank w'.
Proof.
  destruct w as [|c w']; [now left | right].
  exists c, w'. split; [reflexivity|]. inversion Hw; subst.
  split; [now apply isspace_range | assumption].
Qed.

(** Splits on [w]: empty, or headed by a whitespace code point. *)
Ltac on_blank :=
  let c := fresh "sp" in let w' := fresh "w" in
  let E := fresh "E" in let R := fresh "R" in let B := fresh "B" in
  destruct blank_cases as [E | (c & w' & E & R & B)]; rewrite E;
  [ rewrite ?app_nil_r | ].

Lemma span_digit_app (s : str) :
  span is_digit (s ++ w) = (fst (span is_digit s), snd (span is_digit s) ++ w).
Proof.
  induction s as [|a s IH]; simpl.
  - on_blank; [reflexivity | simpl; out; reflexivity].
  - destruct (is_digit a); [|reflexivity].
    rewrite IH. destruct (span is_digit s); reflexivity.
Qed.

Lemma scan_int_app (s : str) :
  scan_int (s ++ w) =
  match scan_int s with
  | Some (neg, ds, r) => Some (neg, ds, r ++ w)
  | None => None
  end.
Proof.
  on_blank.
  { destruct (scan_int s) as [[[neg ds] r]|]; rewrite ?app_nil_r; reflexivity. }
  unfold scan_int. norm_cp.
  destruct s as [|c t]; simpl; [out; reflexivity|].
  destruct (c =? 45).
  - destruct t as [|d t]; simpl; [out; reflexivity|].
    repeat (case_if; try reflexivity).
    rewrite <- E, span_digit_app. destruct (span is_digit t); reflexivity.
  - repeat (case_if; try reflexivity).
    rewrite <- E, span_digit_app. destruct (span is_digit t); reflexivity.
Qed.

Lemma scan_frac_app (s : str) :
  scan_frac (s ++ w) = (fst (scan_frac s), snd (scan_frac s) ++ w).
Proof.
  on_blank; [destruct (scan_frac s); reflexivity|].
  unfold scan_frac. norm_cp.
  destruct s as [|c [|d t]]; simpl.
  - destruct w0; [reflexivity|]. out. reflexivity.
  - out. rewrite andb_false_r. reflexivity.
  - case_if; [|reflexivity].
    rewrite <- E, span_digit_app. destruct (span is_digit t); reflexivity.
Qed.

Lemma scan_exp_app (s : str) :
  scan_exp (s ++ w) = (fst (scan_exp s), snd (scan_exp s) ++ w).
Proof.
  on_blank; [destruct (scan_exp s); reflexivity|].
  unfold scan_exp. norm_cp.
  destruct s as [|e [|c t]]; simpl.
  - destruct w0; [reflexivity|]. out. reflexivity.
  - out. case_if; reflexivity.
  - case_if; [|reflexivity].
    case_if.
    + rewrite <- E, span_digit_app. destruct (span is_digit t); reflexivity.
    + case_if; [|reflexivity].
      destruct t as [|d t]; simpl; [out; reflexivity|].
      case_if; [|reflexivity].
      rewrite <- E, span_digit_app. destruct (span is_digit t); reflexivity.
Qed.

Lemma parse_number_app (maxd : N) (s : str) :
  parse_number maxd (s ++ w) = shift w (parse_number maxd s).
Proof.
  unfold parse_number. rewrite scan_int_app.
  destruct (scan_int s) as [[[neg ds] r1]|]; [|reflexivity].
  rewrite scan_frac_app. destruct (scan_frac r1) as [frac r2]. simpl.
  rewrite scan_exp_app. destruct (scan_exp r2) as [exp r3]. simpl.
  destruct frac, exp; try reflexivity.
  now destruct (digits_ok maxd ds).
Qed.

Lemma decode_uXXXX_app (s : str) :
  decode_uXXXX (s ++ w) = shift w (decode_uXXXX s).
Proof.
  unfold decode_uXXXX.
  destruct s as [|a [|b [|c [|d r]]]]; simpl.
  - destruct w as [|a [|b [|c [|d r]]]]; try reflexivity.
    inversion Hw; subst. rewrite hexval_out by now apply isspace_range.
    reflexivity.
  - destruct w as [|b [|c [|d r]]]; try reflexivity.
    inversion Hw; subst. rewrite (@hexval_out b) by now apply isspace_range.
    destruct (hexval a); reflexivity.
  - destruct w as [|c [|d r]]; try reflexivity.
    inversion Hw; subst. rewrite (@hexval_out c) by now apply isspace_range.
    destruct (hexval a), (hexval b); reflexivity.
  - destruct w as [|d r]; try reflexivity.
    inversion Hw; subst. rewrite (@hexval_out d) by now apply isspace_range.
    destruct (hexval a), (hexval b), (hexval c); reflexivity.
  - destruct (hexval a), (hexval b), (hexval c), (hexval d); reflexivity.
Qed.

Lemma shift_push {A} (a : A) (o : option (list A * str)) :
  shift w (push a o) = push a (shift w o).
Proof. destruct o as [[l r]|]; reflexivity. Qed.

Lemma scan_step_blank (more : str -> option (str * str)) :
  (forall b, blank b -> more b = None) ->
  forall b, blank b -> scan_step more b = None.
Proof.
  intros Hm b Hb. destruct b as [|c b]; [reflexivity|].
  inversion Hb as [|? ? Hc Hb']; subst. apply isspace_range in Hc.
  simpl. out. rewrite (Hm b Hb'). simpl. now destruct (c <? 32).
Qed.

Lemma scanstring_blank (n : nat) (b : str) : blank b -> scanstring n b = None.
Proof.
  revert b. induction n as [|n IH]; intros b Hb; [reflexivity|].
  simpl. now apply scan_step_blank.
Qed.

Lemma scan_step_app (more : str -> option (str * str)) :
  (forall b, blank b -> more b = None) ->
  (forall t, more (t ++ w) = shift w (more t)) ->
  forall s, scan_step more (s ++ w) = shift w (scan_step more s).
Proof.
  intros Hb Hm s.
  destruct s as [|c t].
  { simpl. now rewrite scan_step_blank. }
  unfold scan_step. cbn [app]. case_if; [reflexivity|]. case_if.
  2:{ case_if; [reflexivity|]. now rewrite Hm, shift_push. }
  destruct t as [|e t]; cbn [app].
  { on_blank; [reflexivity|]. out. reflexivity. }
  case_if.
  2:{ destruct (unescape e); [|reflexivity]. now rewrite Hm, shift_push. }
  rewrite decode_uXXXX_app.
  destruct (decode_uXXXX t) as [[uni r]|]; [cbn [shift]|reflexivity].
  destruct r as [|b [|x r]]; cbn [app].
  - rewrite shift_push, <- Hm. cbn [app].
    on_blank; [reflexivity|]. destruct w0; [reflexivity|].
    out. rewrite andb_false_r. reflexivity.
  - rewrite shift_push, <- Hm. cbn [app].
    on_blank; [reflexivity|]. out. rewrite andb_false_r. reflexivity.
  - case_if.
    + rewrite decode_uXXXX_app.
      destruct (decode_uXXXX r) as [[uni2 r2]|]; [cbn [shift]|reflexivity].
      case_if; rewrite shift_push, <- Hm; reflexivity.
    + rewrite shift_push, <- Hm. reflexivity.
Qed.

Lemma scanstring_app (n : nat) (s : str) :
  scanstring n (s ++ w) = shift w (scanstring n s).
Proof.
  revert s. induction n as [|n IH]; intros s; [reflexivity|].
  simpl. apply scan_step_app; [apply scanstring_blank | apply IH].
Qed.

Lemma is_ws_isspace (c : N) : is_ws c = true -> isspace c = true.
Proof.
  unfold is_ws. intros H.
  repeat (apply orb_prop in H; destruct H as [H | H]);
    apply N.eqb_eq in H; subst; reflexivity.
Qed.

Lemma skip_ws_blank (b : str) : blank b -> blank (skip_ws b).
Proof.
  induction 1 as [|c b Hc Hb IH]; simpl; [constructor|].
  destruct (is_ws c); [assumption | now constructor].
Qed.

Lemma skip_ws_app (s : str) :
  skip_ws (s ++ w) =
  match skip_ws s with
  | [] => skip_ws w
  | c :: r => c :: r ++ w
  end.
Proof.
  induction s as [|c s IH]; simpl.
  - now destruct (skip_ws w).
  - destruct (is_ws c); [assumption | reflexivity].
Qed.

Lemma startswith_app_out (m s : str) :
  forallb (fun x => (33 <=? x) && (x <=? 132)) m = true ->
  startswith m (s ++ w) = startswith m s.
Proof.
  revert s. induction m as [|a m IH]; intros s Hm; [reflexivity|].
  simpl in Hm. apply andb_prop in Hm. destruct Hm as [Ha Hm].
  apply andb_prop in Ha. destruct Ha as [Ha1 Ha2].
  apply N.leb_le in Ha1. apply N.leb_le in Ha2.
  destruct s as [|b s]; simpl.
  - on_blank; [reflexivity|]. simpl.
    replace (a =? sp)%N with false; [reflexivity|].
    symmetry. apply N.eqb_neq. lia.
  - now rewrite IH.
Qed.

Lemma skipn_app_startswith (m s : str) (k : nat) :
  k = length m -> startswith m s = true ->
  skipn k (s ++ w) = skipn k s ++ w.
Proof.
  intros ->. revert s. induction m as [|a m IH]; intros s H; [reflexivity|].
  destruct s as [|b s]; [discriminate|]. simpl in *.
  apply andb_prop in H. now apply IH.
Qed.

Ltac take_constant :=
  match goal with
  | H : startswith ?m ?s = true |- _ =>
      let k := eval vm_compute in (length m) in
      rewrite (@skipn_app_startswith m s k eq_refl H); reflexivity
  end.

Lemma atom_of_app (maxd : N) (s : str) :
  atom_of maxd (s ++ w) = shift w (atom_of maxd s).
Proof.
  unfold atom_of.
  rewrite !startswith_app_out by reflexivity.
  rewrite parse_number_app.
  repeat (case_if; [take_constant|]).
  destruct (parse_number maxd s) as [[v r]|]; [reflexivity|]. cbn [shift].
  repeat (case_if; [take_constant|]).
  reflexivity.
Qed.

End Trailing.

Lemma atom_of_blank (maxd : N) (b : str) :
  blank b -> atom_of maxd b = None.
Proof. intros Hb. apply (atom_of_app Hb maxd []). Qed.

Lemma value_of_blank maxd room scan members items (b : str) :
  blank b -> value_of maxd room scan members items b = None.
Proof.
  intros Hb. destruct b as [|c b]; [reflexivity|].
  unfold value_of. pose proof (isspace_range _ (Forall_inv Hb)) as R.
  norm_cp. rewrite !(@eqb_out c) by (assumption || lia).
  now apply atom_of_blank.
Qed.

Lemma members_of_blank scan value members (b : str) :
  blank b -> members_of scan value members b = None.
Proof.
  intros Hb. destruct b as [|c b]; [reflexivity|].
  unfold members_of. pose proof (isspace_range _ (Forall_inv Hb)) as R.
  now rewrite (@eqb_out c) by (assumption || lia).
Qed.

Lemma parse_blank (maxd : N) (n d : nat) (b : str) :
  blank b ->
  parse_value maxd n d b = None /\ parse_members maxd n d b = None
  /\ parse_items maxd n d b = None.
Proof.
  intros Hb. destruct n as [|n]; [now repeat split|]. simpl.
  split; [now apply value_of_blank|].
  split; [now apply members_of_blank|].
  unfold items_of. destruct n as [|n]; [reflexivity|]. simpl.
  now rewrite value_of_blank.
Qed.

Section TrailingValue.

Variable w : str.
Hypothesis Hw : blank w.

Variable maxd : N.
Variable room : bool.
Variable scan : str -> option (str * str).
Variable value : str -> option (json * str).
Variable members : str -> option (list (str * json) * str).
Variable items : str -> option (list json * str).

Hypothesis scan_app : forall s, scan (s ++ w) = shift w (scan s).
Hypothesis value_app : forall s, value (s ++ w) = shift w (value s).
Hypothesis members_app : forall s, members (s ++ w) = shift w (members s).
Hypothesis items_app : forall s, items (s ++ w) = shift w (items s).
Hypothesis value_blank : forall b, blank b -> value b = None.
Hypothesis members_blank : forall b, blank b -> members b = None.
Hypothesis items_blank : forall b, blank b -> items b = None.

(** After [skip_ws], a blank remainder is empty or starts with a
    whitespace code point that is not JSON whitespace. *)
Ltac on_rest :=
  let c := fresh "sp" in let w' := fresh "w" in
  let E := fresh "E" in let R := fresh "R" in
  pose proof (skip_ws_blank Hw) as B;
  destruct (skip_ws w) as [|c w'] eqn:E; [reflexivity|];
  pose proof (isspace_range _ (Forall_inv B)) as R.

Lemma value_of_app (s : str) :
  value_of maxd room scan members items (s ++ w)
  = shift w (value_of maxd room scan members items s).
Proof.
  destruct s as [|c t].
  { simpl. now rewrite value_of_blank. }
  unfold value_of. cbn [app].
  case_if.
  { rewrite scan_app. now destruct (scan t) as [[x r]|]. }
  case_if.
  { destruct room; [|reflexivity].
    rewrite skip_ws_app. destruct (skip_ws t) as [|c' r].
    - on_rest. norm_cp. rewrite (@eqb_out sp) by (assumption || lia).
      now rewrite members_blank.
    - case_if; [reflexivity|].
      rewrite app_comm_cons, members_app.
      now destruct (members (c' :: r)) as [[ps r']|]. }
  case_if.
  { destruct room; [|reflexivity].
    rewrite skip_ws_app. destruct (skip_ws t) as [|c' r].
    - on_rest. norm_cp. rewrite (@eqb_out sp) by (assumption || lia).
      now rewrite items_blank.
    - case_if; [reflexivity|].
      rewrite app_comm_cons, items_app.
      now destruct (items (c' :: r)) as [[vs r']|]. }
  apply (atom_of_app Hw maxd (c :: t)).
Qed.

Lemma members_of_app (s : str) :
  members_of scan value members (s ++ w)
  = shift w (members_of scan value members s).
Proof.
  destruct s as [|c t].
  { simpl. now rewrite members_of_blank. }
  unfold members_of. cbn [app].
  case_if; [|reflexivity].
  rewrite scan_app. destruct (scan t) as [[k r1]|]; [cbn [shift]|reflexivity].
  rewrite skip_ws_app. destruct (skip_ws r1) as [|c1 r2].
  { on_rest. norm_cp. now rewrite (@eqb_out sp) by (assumption || lia). }
  case_if; [|reflexivity].
  rewrite skip_ws_app. destruct (skip_ws r2) as [|c2 r2'].
  { rewrite value_blank by now apply skip_ws_blank.
    now rewrite (value_blank (b:=[])) by constructor. }
  rewrite app_comm_cons, value_app.
  destruct (value (c2 :: r2')) as [[v r3]|]; [cbn [shift]|reflexivity].
  rewrite skip_ws_app. destruct (skip_ws r3) as [|c3 r4].
  { on_rest. norm_cp. now rewrite !(@eqb_out sp) by (assumption || lia). }
  case_if; [reflexivity|]. case_if; [|reflexivity].
  rewrite shift_push. f_equal.
  rewrite skip_ws_app. destruct (skip_ws r4) as [|c4 r5].
  { rewrite members_blank by now apply skip_ws_blank.
    now rewrite (members_blank (b:=[])) by constructor. }
  rewrite app_comm_cons. apply members_app.
Qed.

Lemma items_of_app (s : str) :
  items_of value items (s ++ w) = shift w (items_of value items s).
Proof.
  unfold items_of. rewrite value_app.
  destruct (value s) as [[v r1]|]; [cbn [shift]|reflexivity].
  rewrite skip_ws_app. destruct (skip_ws r1) as [|c r2].
  { on_rest. norm_cp. now rewrite !(@eqb_out sp) by (assumption || lia). }
  case_if; [reflexivity|]. case_if; [|reflexivity].
  rewrite shift_push. f_equal.
  rewrite skip_ws_app. destruct (skip_ws r2) as [|c4 r5].
  { rewrite items_blank by now apply skip_ws_blank.
    now rewrite (items_blank (b:=[])) by constructor. }
  rewrite app_comm_cons. apply items_app.
Qed.

End TrailingValue.

(** Whitespace appended to the input is left unread by the three
    readers, and changes nothing else. *)
Lemma parse_app (w : str) (maxd : N) (n : nat) :
  blank w ->
  forall d,
  (forall s, parse_value maxd n d (s ++ w)
             = shift w (parse_value maxd n d s))
  /\ (forall s, parse_members maxd n d (s ++ w)
                = shift w (parse_members maxd n d s))
  /\ (forall s, parse_items maxd n d (s ++ w)
                = shift w (parse_items maxd n d s)).
Proof.
  intros Hw. induction n as [|n IH]; intros d; [now repeat split|].
  destruct (IH d) as (IHv & IHm & IHi).
  destruct (IH (pred d)) as (_ & IHm' & IHi').
  simpl. repeat split; intros s.
  - apply value_of_app; auto using scanstring_app;
      intros b Hb; now apply parse_blank.
  - apply members_of_app; auto using scanstring_app;
      intros b Hb; now apply parse_blank.
  - apply items_of_app; auto; intros b Hb; now apply parse_blank.
Qed.

(** *** Fuel *)

Lemma skip_ws_length (s : str) : (length (skip_ws s) <= length s)%nat.
Proof.
  induction s as [|c s IH]; simpl; [lia|].
  destruct (is_ws c); simpl; lia.
Qed.

Lemma span_length f (s : str) :
  (length (snd (span f s)) <= length s)%nat.
Proof.
  induction s as [|c s IH]; simpl; [lia|].
  destruct (f c); [|simpl; lia].
  destruct (span f s); simpl in *; lia.
Qed.

Lemma decode_uXXXX_length (s r : str) (x : N) :
  decode_uXXXX s = Some (x, r) -> length s = (4 + length r)%nat.
Proof.
  unfold decode_uXXXX.
  destruct s as [|a [|b [|c [|d t]]]]; try discriminate.
  destruct (hexval a), (hexval b), (hexval c), (hexval d); try discriminate.
  intros H. inversion H; subst. reflexivity.
Qed.

Lemma push_Some {A} (a : A) o (l : list A) (r : str) :
  push a o = Some (l, r) -> exists l', l = a :: l' /\ o = Some (l', r).
Proof.
  destruct o as [[l' r']|]; simpl; [|discriminate].
  intros H. inversion H; subst. now exists l'.
Qed.

Lemma scan_step_within (k : nat) more more' :
  reads_within k more more' ->
  reads_within (S k) (scan_step more) (scan_step more').
Proof.
  intros Hm s a r H. unfold scan_step in *.
  destruct s as [|c t]; [discriminate|]. cbn [length].
  destruct (c =? 34). { inversion H; subst. split; [lia | reflexivity]. }
  destruct (c =? 92).
  2:{ destruct (c <? 32); [discriminate|].
      apply push_Some in H. destruct H as (l & -> & H).
      destruct (Hm _ _ _ H) as [L K].
      split; [lia|]. intros B. now rewrite K by lia. }
  destruct t as [|e t]; [discriminate|]. cbn [length].
  destruct (e =? cp "u").
  2:{ destruct (unescape e); [|discriminate].
      apply push_Some in H. destruct H as (l & -> & H).
      destruct (Hm _ _ _ H) as [L K].
      split; [lia|]. intros B. now rewrite K by lia. }
  destruct (decode_uXXXX t) as [[uni r0]|] eqn:D; [|discriminate].
  apply decode_uXXXX_length in D.
  assert (Hone : forall l, push uni (more r0) = Some (l, r) ->
            (length r < S (S (length t)))%nat
            /\ ((S (S (length t)) - length r <= S k)%nat ->
                push uni (more' r0) = Some (l, r))).
  { intros l Hl. apply push_Some in Hl. destruct Hl as (l' & -> & Hl).
    destruct (Hm _ _ _ Hl) as [L K].
    split; [lia|]. intros B. now rewrite K by lia. }
  destruct r0 as [|b [|x r1]]; try (now apply Hone).
  destruct (high_surrogate uni && (b =? 92) && (x =? cp "u"));
    [|now apply Hone].
  destruct (decode_uXXXX r1) as [[uni2 r2]|] eqn:D2; [|discriminate].
  apply decode_uXXXX_length in D2. cbn [length] in *.
  destruct (low_surrogate uni2); [|now apply Hone].
  apply push_Some in H. destruct H as (l & -> & H).
  destruct (Hm _ _ _ H) as [L K].
  split; [lia|]. intros B. now rewrite K by lia.
Qed.

Lemma scanstring_within (n k : nat) :
  reads_within k (scanstring n) (scanstring k).
Proof.
  revert k. induction n as [|n IH]; intros k s a r H; [discriminate|].
  simpl in H. destruct k as [|k].
  - destruct (@scan_step_within 0 _ (scanstring 0) (IH 0%nat) _ _ _ H).
    split; [assumption | lia].
  - now apply (scan_step_within (IH k)).
Qed.

Lemma scan_int_length (s ds r : str) (neg : bool) :
  scan_int s = Some (neg, ds, r) -> (length r < length s)%nat.
Proof.
  unfold scan_int.
  assert (Ht : forall t b, (length t <= length s)%nat ->
            match t with
            | [] => None
            | c :: t' =>
                if c =? cp "0" then Some (b, [c], t')
                else if is_digit c
                     then let '(ds, r) := span is_digit t' in
                          Some (b, c :: ds, r)
                     else None
            end = Some (neg, ds, r) -> (length r < length s)%nat).
  { intros t b Lt H. destruct t as [|c t']; [discriminate|].
    cbn [length] in Lt.
    destruct (c =? cp "0"). { inversion H; subst. lia. }
    destruct (is_digit c); [|discriminate].
    pose proof (span_length is_digit t') as Ls.
    destruct (span is_digit t') as [ds' r']. inversion H; subst.
    simpl in Ls. lia. }
  destruct s as [|c t]; [discriminate|]. intros H.
  destruct (c =? cp "-");
    [apply (Ht t true) | apply (Ht (c :: t) false)];
    cbn [length]; try lia; exact H.
Qed.

Lemma scan_frac_length (s : str) :
  (length (snd (scan_frac s)) <= length s)%nat.
Proof.
  unfold scan_frac. destruct s as [|c [|d t]]; cbn [snd length]; try lia.
  case_if; cbn [snd length]; [|lia].
  pose proof (span_length is_digit t). destruct (span is_digit t).
  simpl in *. lia.
Qed.

Lemma scan_exp_length (s : str) :
  (length (snd (scan_exp s)) <= length s)%nat.
Proof.
  unfold scan_exp. destruct s as [|e [|c t]]; cbn [snd length]; try lia.
  case_if; cbn [snd length]; [|lia].
  case_if.
  - pose proof (span_length is_digit t). destruct (span is_digit t).
    simpl in *. lia.
  - case_if; cbn [snd length]; [|lia].
    destruct t as [|d t]; cbn [snd length]; [lia|].
    case_if; cbn [snd length]; [|lia].
    pose proof (span_length is_digit t). destruct (span is_digit t).
    simpl in *. lia.
Qed.

Lemma parse_number_length (maxd : N) (s r : str) (v : json) :
  parse_number maxd s = Some (v, r) -> (length r < length s)%nat.
Proof.
  unfold parse_number.
  destruct (scan_int s) as [[[neg ds] r1]|] eqn:E; [|discriminate].
  apply scan_int_length in E.
  pose proof (scan_frac_length r1) as L2.
  destruct (scan_frac r1) as [frac r2].
  pose proof (scan_exp_length r2) as L3.
  destruct (scan_exp r2) as [exp r3]. simpl in *.
  intros H.
  assert (r = r3)
    by (destruct frac, exp, (digits_ok maxd ds); now inversion H).
  subst. lia.
Qed.

Lemma startswith_skipn (m s : str) :
  startswith m s = true ->
  length s = (length m + length (skipn (length m) s))%nat.
Proof.
  revert s. induction m as [|a m IH]; intros s H; [reflexivity|].
  destruct s as [|b s]; [discriminate|]. simpl in *.
  apply andb_prop in H. destruct H as [_ H]. now rewrite <- IH.
Qed.

Lemma atom_of_length (maxd : N) (s r : str) (v : json) :
  atom_of maxd s = Some (v, r) -> (length r < length s)%nat.
Proof.
  unfold atom_of. intros H.
  repeat match type of H with
  | (if startswith ?m s then _ else _) = _ =>
      let E := fresh "E" in
      destruct (startswith m s) eqn:E;
      [ apply startswith_skipn in E; inversion H; subst;
        rewrite E; simpl; lia | ]
  end.
  destruct (parse_number maxd s) as [[v' r']|] eqn:P.
  { inversion H; subst. now apply parse_number_length in P. }
  repeat match type of H with
  | (if startswith ?m s then _ else _) = _ =>
      let E := fresh "E" in
      destruct (startswith m s) eqn:E;
      [ apply startswith_skipn in E; inversion H; subst;
        rewrite E; simpl; lia | ]
  end.
  discriminate.
Qed.

Section Fuel.

Variable k : nat.
Variable maxd : N.
Variable room : bool.
Variables scan scan' : str -> option (str * str).
Variables value value' : str -> option (json * str).
Variables members members' : str -> option (list (str * json) * str).
Variables items items' : str -> option (list json * str).

Hypothesis Hscan : reads_within k scan scan'.
Hypothesis Hvalue : reads_within k value value'.
Hypothesis Hmembers : reads_within k members members'.
Hypothesis Hitems : reads_within k items items'.

Lemma value_of_within :
  reads_within (S k) (value_of maxd room scan members items)
    (value_of maxd room scan' members' items').
Proof.
  intros s a r H. unfold value_of in *.
  destruct s as [|c t]; [discriminate|]. cbn [length].
  destruct (c =? 34).
  { destruct (scan t) as [[x r1]|] eqn:E; [|discriminate].
    inversion H; subst. destruct (Hscan E) as [L K].
    split; [lia|]. intros B. now rewrite K by lia. }
  destruct (c =? cp "{").
  { destruct room; [|discriminate].
    pose proof (skip_ws_length t) as Lt.
    destruct (skip_ws t) as [|c' r1]; [discriminate|]. cbn [length] in Lt.
    destruct (c' =? cp "}"). { inversion H; subst. split; [lia|reflexivity]. }
    destruct (members (c' :: r1)) as [[ps r']|] eqn:E; [|discriminate].
    inversion H; subst. destruct (Hmembers E) as [L K].
    cbn [length] in *. split; [lia|]. intros B. now rewrite K by lia. }
  destruct (c =? cp "[").
  { destruct room; [|discriminate].
    pose proof (skip_ws_length t) as Lt.
    destruct (skip_ws t) as [|c' r1]; [discriminate|]. cbn [length] in Lt.
    destruct (c' =? cp "]"). { inversion H; subst. split; [lia|reflexivity]. }
    destruct (items (c' :: r1)) as [[vs r']|] eqn:E; [|discriminate].
    inversion H; subst. destruct (Hitems E) as [L K].
    cbn [length] in *. split; [lia|]. intros B. now rewrite K by lia. }
  split; [|intros _; assumption].
  apply atom_of_length in H. cbn [length] in H. lia.
Qed.

Lemma members_of_within :
  reads_within (S k) (members_of scan value members)
    (members_of scan' value' members').
Proof.
  intros s a r H. unfold members_of in *.
  destruct s as [|c t]; [discriminate|]. cbn [length].
  destruct (c =? 34); [|discriminate].
  destruct (scan t) as [[key r1]|] eqn:E1; [|discriminate].
  destruct (Hscan E1) as [L1 K1].
  pose proof (skip_ws_length r1) as W1.
  destruct (skip_ws r1) as [|c1 r2] eqn:S1; [discriminate|].
  cbn [length] in W1.
  destruct (c1 =? cp ":") eqn:T1; [|discriminate].
  pose proof (skip_ws_length r2) as W2.
  destruct (value (skip_ws r2)) as [[v r3]|] eqn:E2; [|discriminate].
  destruct (Hvalue E2) as [L2 K2].
  pose proof (skip_ws_length r3) as W3.
  destruct (skip_ws r3) as [|c3 r4] eqn:S3; [discriminate|].
  cbn [length] in W3.
  destruct (c3 =? cp "}") eqn:T3.
  { inversion H; subst. split; [lia|]. intros B.
    rewrite K1, S1, T1, K2, S3, T3 by lia. reflexivity. }
  destruct (c3 =? cp ",") eqn:T4; [|discriminate].
  apply push_Some in H. destruct H as (l & -> & H).
  destruct (Hmembers H) as [L3 K3].
  pose proof (skip_ws_length r4) as W4.
  split; [lia|]. intros B.
  rewrite K1, S1, T1, K2, S3, T3, T4, K3 by lia. reflexivity.
Qed.

Lemma items_of_within :
  reads_within (S k) (items_of value items) (items_of value' items').
Proof.
  intros s a r H. unfold items_of in *.
  destruct (value s) as [[v r1]|] eqn:E1; [|discriminate].
  destruct (Hvalue E1) as [L1 K1].
  pose proof (skip_ws_length r1) as W1.
  destruct (skip_ws r1) as [|c r2] eqn:S1; [discriminate|].
  cbn [length] in W1.
  destruct (c =? cp "]") eqn:T1.
  { inversion H; subst. split; [lia|]. intros B.
    rewrite K1, S1, T1 by lia. reflexivity. }
  destruct (c =? cp ",") eqn:T2; [|discriminate].
  apply push_Some in H. destruct H as (l & -> & H).
  destruct (Hitems H) as [L2 K2].
  pose proof (skip_ws_length r2) as W2.
  split; [lia|]. intros B.
  rewrite K1, S1, T1, T2, K2 by lia. reflexivity.
Qed.

End Fuel.

(** A reading that succeeds with some fuel succeeds, with the same
    result, with any fuel that is at least the number of code points
    read. *)
Lemma reads_within_0 {A} (f f' g : str -> option (A * str)) :
  reads_within 1 f f' -> reads_within 0 f g.
Proof.
  intros H s a r E. destruct (H s a r E) as [L _]. split; [assumption|lia].
Qed.

Lemma parse_within (maxd : N) (n k d : nat) :
  reads_within k (parse_value maxd n d) (parse_value maxd k d)
  /\ reads_within k (parse_members maxd n d) (parse_members maxd k d)
  /\ reads_within k (parse_items maxd n d) (parse_items maxd k d).
Proof.
  revert k d. induction n as [|n IH]; intros k d.
  { split; [|split]; intros s a r H; discriminate. }
  destruct k as [|k].
  - destruct (IH 0%nat d) as (Hv & Hm & Hi).
    destruct (IH 0%nat (pred d)) as (_ & Hm' & Hi').
    pose proof (scanstring_within n 0) as Hs.
    split; [|split]; eapply reads_within_0; simpl.
    + apply value_of_within; eassumption.
    + apply members_of_within; eassumption.
    + apply items_of_within; eassumption.
  - destruct (IH k d) as (Hv & Hm & Hi).
    destruct (IH k (pred d)) as (_ & Hm' & Hi').
    pose proof (scanstring_within n k) as Hs.
    simpl. split; [|split].
    + now apply value_of_within.
    + now apply members_of_within.
    + now apply items_of_within.
Qed.

(** The fuel [loads] supplies is enough: a value read with any fuel is
    read with it. *)
Lemma loads_fuel (maxd : N) (n d : nat) (s r : str) (v : json) :
  parse_value maxd n d s = Some (v, r) ->
  parse_value maxd (S (length s)) d s = Some (v, r).
Proof.
  intros H. destruct (parse_within maxd n (S (length s)) d) as (Kv & _).
  destruct (Kv _ _ _ H) as [L K]. apply K. lia.
Qed.

(** *** [json.loads] and [str.strip] *)

Lemma startswith_head_out (m t : str) (c : N) :
  (c <= 32 \/ 133 <= c) ->
  forallb (fun x => (33 <=? x) && (x <=? 132)) m = true ->
  m <> [] -> startswith m (c :: t) = false.
Proof.
  intros R Hm Hn. destruct m as [|a m]; [congruence|].
  simpl in Hm. apply andb_prop in Hm. destruct Hm as [Ha _].
  apply andb_prop in Ha. destruct Ha as [Ha1 Ha2].
  apply N.leb_le in Ha1. apply N.leb_le in Ha2.
  simpl. replace (a =? c) with false; [reflexivity|].
  symmetry. apply N.eqb_neq. lia.
Qed.

Lemma atom_of_head (maxd : N) (c : N) (t : str) :
  (c <= 32 \/ 133 <= c) -> atom_of maxd (c :: t) = None.
Proof.
  intros R. unfold atom_of.
  rewrite !startswith_head_out
    by first [assumption | reflexivity | (vm_compute; discriminate)].
  unfold parse_number, scan_int. out. reflexivity.
Qed.

Lemma parse_value_head (maxd : N) (n d : nat) (s r : str) (v : json) :
  parse_value maxd n d s = Some (v, r) ->
  exists c t, s = c :: t /\ isspace c = false.
Proof.
  destruct n as [|n]; [discriminate|]. simpl.
  destruct s as [|c t]; [discriminate|]. intros H.
  exists c, t. split; [reflexivity|].
  destruct (isspace c) eqn:Hc; [|reflexivity].
  apply isspace_range in Hc. unfold value_of in H. revert H. norm_cp.
  rewrite !(@eqb_out c) by (assumption || lia).
  now rewrite atom_of_head.
Qed.

Lemma lstrip_skip_ws (s t : str) (c : N) :
  skip_ws s = c :: t -> isspace c = false -> lstrip s = c :: t.
Proof.
  intros E Hc. induction s as [|a s IH]; [discriminate|]. simpl in *.
  destruct (is_ws a) eqn:Ha.
  - rewrite (is_ws_isspace _ Ha). now apply IH.
  - inversion E; subst. now rewrite Hc.
Qed.

Lemma skip_ws_head (c : N) (t : str) :
  isspace c = false -> skip_ws (c :: t) = c :: t.
Proof.
  intros Hc. simpl. destruct (is_ws c) eqn:Ha; [|reflexivity].
  apply is_ws_isspace in Ha. congruence.
Qed.

(** A document that [json.loads] accepts is accepted, with the same
    value, after [str.strip]. *)
Lemma loads_strip (lim : Limits) (J : str) (v : json) :
  loads lim J = Some v -> loads lim (strip J) = Some v.
Proof.
  unfold loads. intros H.
  set (maxd := int_max_str_digits lim) in *.
  set (d := recursion_budget lim) in *.
  destruct (parse_value maxd (S (length (skip_ws J))) d (skip_ws J))
    as [[v' r]|] eqn:P; [|discriminate].
  destruct (skip_ws r) eqn:Sr; [|discriminate].
  inversion H; subst v'. clear H.
  destruct (parse_value_head _ _ _ _ P) as (c & t & E & Hc).
  unfold strip. rewrite (lstrip_skip_ws _ E Hc).
  rewrite E in P.
  destruct (rstrip_split (c :: t)) as (w & Hw & Ew).
  remember (rstrip (c :: t)) as core eqn:Ec. clear Ec.
  rewrite Ew in P.
  destruct (parse_app maxd (S (length (core ++ w))) Hw d) as (Pv & _).
  rewrite Pv in P.
  destruct (parse_value maxd (S (length (core ++ w))) d core)
    as [[v' r0]|] eqn:P0; [|discriminate].
  inversion P; subst v' r. clear P.
  destruct core as [|c' core'].
  { destruct (parse_value_head _ _ _ _ P0) as (? & ? & ? & _). discriminate. }
  assert (c' = c) by (inversion Ew; reflexivity). subst c'.
  rewrite skip_ws_head by assumption.
  destruct (parse_within maxd (S (length ((c :: core') ++ w)))
              (S (length (c :: core'))) d) as (Kv & _).
  destruct (Kv _ _ _ P0) as [L K]. rewrite K by lia.
  rewrite (skip_ws_app w) in Sr.
  destruct (skip_ws r0); [reflexivity | discriminate].
Qed.

End JsonFacts.

(** ** Facts on the service *)

Module ServiceFacts.
Import PyStrFacts JsonFacts.

Lemma not_in_tail_start : ~ In 91%N (u "JSON_START]").
Proof. vm_compute. intuition discriminate. Qed.

Lemma not_in_tail_end : ~ In 91%N (u "JSON_END]").
Proof. vm_compute. intuition discriminate. Qed.

(** In [A + "[JSON_START]" + rest], with no start marker in [A], the
    first start marker is the one written. *)
Lemma find_start (A rest : str) :
  contains start_marker A = false ->
  find (A ++ start_marker ++ rest) start_marker = len A.
Proof.
  intros H. unfold find.
  change start_marker with (91%N :: u "JSON_START]") in *.
  cbn [app]. rewrite find_from_skip; try assumption.
  - rewrite find_from_here; [lia|].
    apply (startswith_app (91%N :: u "JSON_START]") rest).
  - apply not_in_tail_start.
Qed.

(** In [A + "[JSON_START]" + J + "[JSON_END]" + rest], with no end
    marker in [A] nor in [J], the first end marker is the one written. *)
Lemma find_end (A J rest : str) :
  contains end_marker A = false ->
  contains end_marker J = false ->
  find (A ++ start_marker ++ J ++ end_marker ++ rest) end_marker
  = (len A + len start_marker + len J)%Z.
Proof.
  intros HA HJ. unfold find.
  change end_marker with (91%N :: u "JSON_END]") in *.
  change start_marker with (91%N :: u "JSON_START]").
  cbn [app]. rewrite find_from_skip; try assumption;
    [|apply not_in_tail_end].
  change (91%N :: u "JSON_START]" ++ J ++ 91%N :: u "JSON_END]" ++ rest)
    with (u "[JSON_START]" ++ (J ++ 91%N :: u "JSON_END]" ++ rest)).
  rewrite find_from_clear_left by reflexivity.
  rewrite find_from_skip; try assumption; [|apply not_in_tail_end].
  rewrite find_from_here.
  - change (len (91%N :: u "JSON_START]")) with (len (u "[JSON_START]")).
    lia.
  - apply (startswith_app (91%N :: u "JSON_END]") rest).
Qed.

(** The text handed to [json.loads] is then [J], trimmed. *)
Lemma json_str_between (A J rest : str) :
  contains start_marker A = false ->
  contains end_marker A = false ->
  contains end_marker J = false ->
  json_str (A ++ start_marker ++ J ++ end_marker ++ rest) = strip J.
Proof.
  intros HS HA HJ. unfold json_str.
  rewrite find_start, find_end by assumption. f_equal.
  rewrite <- len_app. rewrite (app_assoc A start_marker).
  apply slice_middle.
Qed.

(** The handler makes one provider call, with the fixed system
    instruction and the user instruction of the request. *)
Lemma generate_model_calls (rt : Runtime) (request : FinancialModelRequest) :
  snd (generate_model rt request)
  = [ {| model := u "gpt-4";
         messages := [(system, construct_system_prompt);
                      (user, user_instruction request)];
         temperature := u "0.7";
         max_tokens := 2500 |} ].
Proof.
  unfold generate_model, generate_financial_model. reflexivity.
Qed.

(** The response of the handler, by what the provider call does. *)
Lemma generate_model_response (rt : Runtime)
    (request : FinancialModelRequest) :
  fst (generate_model rt request)
  = match client_create rt
            (chat_request (company_name request) (program_design_of request)
               (existing_output_of request) (feedback_of request)) with
    | Raised message => HTTPError 500 message
    | Returned None =>
        HTTPError 500 (u "'NoneType' object has no attribute 'find'")
    | Returned (Some text) =>
        match parse_completion rt text with
        | inl e => HTTPError 500 (str_of_exception e)
        | inr (go, JDict d) =>
            if no_surrogate go && encodable (JDict d)
            then OK200 {| generated_output := go; structured_data := d |}
            else InternalServerError500
        | inr (_, _) => InternalServerError500
        end
    end.
Proof.
  unfold generate_model, generate_financial_model. cbn [fst].
  destruct (client_create rt _) as [m | [text|]]; try reflexivity.
  destruct (parse_completion rt text) as [[c d] | [go v]]; reflexivity.
Qed.

End ServiceFacts.

(** ** Properties of the service *)

Import PyStrFacts JsonFacts ServiceFacts.

(** C1 (as amended).  For every completion text
    [A + "[JSON_START]" + J + "[JSON_END]"] in which [A] holds neither
    marker, [J] does not hold the end marker, and [json.loads], within
    the limits of the interpreter, reads [J] as an object, the parser
    returns [A] trimmed as the analysis and the value of [J] as the
    structured data. *)
Theorem round_trip_parse (rt : Runtime) (A J : str)
    (d : list (str * json)) :
  contains start_marker A = false ->
  contains end_marker A = false ->
  contains end_marker J = false ->
  loads (json_limits rt) J = Some (JDict d) ->
  parse_completion rt (A ++ start_marker ++ J ++ end_marker)
  = inr (strip A, JDict d).
Proof.
  intros HS HA HJ HL.
  unfold parse_completion, extract_json_from_text.
  rewrite <- (app_nil_r end_marker).
  rewrite json_str_between by assumption.
  rewrite (loads_strip _ _ HL).
  change (u "[JSON_START]") with start_marker.
  rewrite find_start by assumption.
  now rewrite slice_to_prefix.
Qed.

(** The synthetic text of the specification,
    [<analysis>[JSON_START]{"a":1}[JSON_END]]. *)
Lemma round_trip_parse_witness :
  contains start_marker (u "<analysis>") = false
  /\ contains end_marker (u "<analysis>") = false
  /\ contains end_marker (uq "{`a`:1}") = false
  /\ loads default_limits (uq "{`a`:1}") = Some (JDict [(u "a", JInt 1)])
  /\ parse_completion (mock_runtime [])
       (uq "<analysis>[JSON_START]{`a`:1}[JSON_END]")
     = inr (u "<analysis>", JDict [(u "a", JInt 1)]).
Proof.
  do 4 (split; [reflexivity|]).
  exact (@round_trip_parse (mock_runtime []) (u "<analysis>")
           (uq "{`a`:1}") [(u "a", JInt 1)]
           eq_refl eq_refl eq_refl eq_refl).
Defined.

(** C1 as stated fails: a JSON object may hold the end marker inside a
    string, and the parser then cuts the object short. *)
Lemma round_trip_end_marker_in_json :
  contains start_marker (u "x") = false
  /\ contains end_marker (u "x") = false
  /\ loads default_limits (uq "{`k`:`[JSON_END]`}")
     = Some (JDict [(u "k", JStr (u "[JSON_END]"))])
  /\ parse_completion
       (mock_runtime_saying []
          "Unterminated string starting at: line 1 column 6 (char 5)")
       (u "x" ++ start_marker ++ uq "{`k`:`[JSON_END]`}" ++ end_marker)
     = inl (HTTPException 500
              (u "Failed to parse structured data from response: "
                 ++ u "Unterminated string starting at: "
                 ++ u "line 1 column 6 (char 5)")).
Proof. repeat split; reflexivity. Qed.

(** C2, at a completion text without the start marker.  [str.find]
    answers [-1], the slice starts at offset 11, and the parser returns
    an analysis and structured data instead of failing. *)
Lemma missing_start_marker_accepted :
  contains start_marker (uq "Model data {`a`:1}[JSON_END]") = false
  /\ parse_completion (mock_runtime [])
       (uq "Model data {`a`:1}[JSON_END]")
     = inr (uq "Model data {`a`:1}[JSON_END", JDict [(u "a", JInt 1)])
  /\ fst (post_generate (mock_runtime (uq "Model data {`a`:1}[JSON_END]"))
            (body_of_name (u "Acme Corp")))
     = OK200 {| generated_output := uq "Model data {`a`:1}[JSON_END";
                structured_data := [(u "a", JInt 1)] |}.
Proof. repeat split; reflexivity. Qed.

(** C3, at a completion text with the start marker and without the end
    marker.  [str.find] answers [-1] for the end marker, the slice stops
    before the last code point, and the parser returns structured
    data instead of failing. *)
Lemma missing_end_marker_accepted :
  contains start_marker (uq "Summary[JSON_START]{`a`:1}" ++ nl) = true
  /\ contains end_marker (uq "Summary[JSON_START]{`a`:1}" ++ nl) = false
  /\ parse_completion (mock_runtime [])
       (uq "Summary[JSON_START]{`a`:1}" ++ nl)
     = inr (u "Summary", JDict [(u "a", JInt 1)])
  /\ fst (post_generate
            (mock_runtime (uq "Summary[JSON_START]{`a`:1}" ++ nl))
            (body_of_name (u "Acme Corp")))
     = OK200 {| generated_output := u "Summary";
                structured_data := [(u "a", JInt 1)] |}.
Proof. repeat split; reflexivity. Qed.

(** C7 as stated fails: the decoder accepts more than JSON.  [NaN] is
    no JSON value, and the text [[JSON_START]{"a":NaN}[JSON_END]] is
    answered with a success. *)
Lemma not_json_yet_accepted :
  json_str (uq "[JSON_START]{`a`:NaN}[JSON_END]") = uq "{`a`:NaN}"
  /\ fst (post_generate
            (mock_runtime (uq "[JSON_START]{`a`:NaN}[JSON_END]"))
            (body_of_name (u "Acme Corp")))
     = OK200 {| generated_output := [];
                structured_data := [(u "a", JFloat (u "NaN"))] |}.
Proof. split; reflexivity. Qed.

(** C7 (as amended).  When both markers occur and [json.loads] rejects
    the text between their first occurrences, trimmed, the request
    fails with status 500, and the detail names the parse failure: it
    is the printed inner exception, which holds the text "Failed to
    parse structured data from response" and the decoder's message. *)
Theorem malformed_json_fails_500 (rt : Runtime)
    (request : FinancialModelRequest) (text : str) :
  let s := find text start_marker in
  let e := find text end_marker in
  let between := strip (slice text (s + len start_marker) e) in
  client_create rt
    (chat_request (company_name request) (program_design_of request)
       (existing_output_of request) (feedback_of request))
  = Returned (Some text) ->
  (0 <= s)%Z -> (0 <= e)%Z ->
  loads (json_limits rt) between = None ->
  fst (generate_model rt request)
  = HTTPError 500
      (u "500: Failed to parse structured data from response: "
         ++ decode_error_str rt between)
  /\ contains (u "Failed to parse structured data from response")
       (u "500: Failed to parse structured data from response: "
          ++ decode_error_str rt between) = true
  /\ contains (decode_error_str rt between)
       (u "500: Failed to parse structured data from response: "
          ++ decode_error_str rt between) = true.
Proof.
  intros s e between Hc _ _ Hl. split; [|split].
  - rewrite generate_model_response, Hc.
    unfold parse_completion, extract_json_from_text.
    fold s e between in Hl.
    change (json_str text) with between. rewrite Hl. reflexivity.
  - change (u "500: Failed to parse structured data from response: ")
      with (u "500: " ++ u "Failed to parse structured data from response"
              ++ u ": ").
    rewrite <- !app_assoc. apply contains_app_r, contains_self_app.
  - apply contains_app_r, contains_refl.
Qed.

(** The malformed text of the specification,
    [[JSON_START]{not valid}[JSON_END]], with the message the decoder
    has for [{not valid}]. *)
Lemma malformed_json_fails_500_witness :
  fst (generate_model
         (mock_runtime_saying (u "[JSON_START]{not valid}[JSON_END]")
            "Expecting property name enclosed in double quotes: line 1 column 2 (char 1)")
         {| company_name := u "Acme Corp"; previous_data := None;
            current_prompt_data := None; other_input_data := Some [] |})
  = HTTPError 500
      (u "500: Failed to parse structured data from response: "
         ++ u "Expecting property name enclosed in double quotes: "
         ++ u "line 1 column 2 (char 1)").
Proof.
  exact (proj1 (@malformed_json_fails_500
           (mock_runtime_saying (u "[JSON_START]{not valid}[JSON_END]")
              "Expecting property name enclosed in double quotes: line 1 column 2 (char 1)")
           {| company_name := u "Acme Corp"; previous_data := None;
              current_prompt_data := None; other_input_data := Some [] |}
           (u "[JSON_START]{not valid}[JSON_END]")
           eq_refl ltac:(vm_compute; discriminate)
           ltac:(vm_compute; discriminate) eq_refl)).
Defined.

(** The builder's result, by the clauses it appends. *)
Lemma construct_user_prompt_clauses (name : str)
    (design existing_output feedback : option str) :
  construct_user_prompt name design existing_output feedback
  = opening name
      ++ (if truthy design then design_clause (fmt design) else [])
      ++ (if truthy existing_output && truthy feedback
          then refinement_clause (fmt existing_output) (fmt feedback)
          else []).
Proof.
  unfold construct_user_prompt, opening, design_clause, refinement_clause.
  destruct (truthy design), (truthy existing_output && truthy feedback);
    rewrite ?app_nil_r, <- ?app_assoc; reflexivity.
Qed.




(** C5.  When [previous_data.loyalty_program_design] is set to a
    string, the user instruction contains that string. *)
Theorem design_text_in_user_instruction (request : FinancialModelRequest)
    (p : PreviousData) (d : str) :
  previous_data request = Some p ->
  loyalty_program_design p = Some d ->
  contains d (user_instruction request) = true.
Proof.
  intros Hp Hd. unfold user_instruction, program_design_of.
  rewrite Hp, Hd. rewrite construct_user_prompt_clauses.
  destruct d as [|c d]; [apply contains_nil|].
  cbn [truthy fmt]. unfold design_clause. rewrite <- !app_assoc.
  do 4 apply contains_app_r. apply contains_self_app.
Qed.

Lemma design_text_in_user_instruction_witness :
  contains (u "points per dollar")
    (user_instruction
       {| company_name := u "Acme Corp";
          previous_data :=
            Some {| loyalty_program_design := Some (u "points per dollar") |};
          current_prompt_data := None;
          other_input_data := Some [] |}) = true.
Proof.
  exact (@design_text_in_user_instruction
           {| company_name := u "Acme Corp";
              previous_data :=
                Some {| loyalty_program_design :=
                          Some (u "points per dollar") |};
              current_prompt_data := None;
              other_input_data := Some [] |}
           {| loyalty_program_design := Some (u "points per dollar") |}
           (u "points per dollar") eq_refl eq_refl).
Defined.

(** C6 as stated fails: the company name is put into the opening
    sentence as it is, so a company name that carries the text of a
    clause puts that clause into the instruction of a request with
    nothing but a company name. *)
Lemma company_name_carries_clause :
  program_design_of
    {| company_name := u "Acme" ++ design_clause (u "tiers");
       previous_data := None; current_prompt_data := None;
       other_input_data := Some [] |} = None
  /\ contains (design_clause (u "tiers"))
       (user_instruction
          {| company_name := u "Acme" ++ design_clause (u "tiers");
             previous_data := None; current_prompt_data := None;
             other_input_data := Some [] |}) = true
  /\ contains (u "Consider this program design")
       (user_instruction
          {| company_name := u "Acme" ++ design_clause (u "tiers");
             previous_data := None; current_prompt_data := None;
             other_input_data := Some [] |}) = true.
Proof. repeat split; reflexivity. Qed.

(** C6 (as amended).  A request with a company name and nothing else,
    whose company name holds neither "Consider this program design" nor
    "Previous financial model", gives the opening sentence alone: the
    instruction contains the company name and contains neither of the
    two texts. *)
Theorem only_company_name (request : FinancialModelRequest) :
  program_design_of request = None ->
  current_prompt_data request = None ->
  contains (u "Consider this program design") (company_name request)
  = false ->
  contains (u "Previous financial model") (company_name request) = false ->
  user_instruction request = opening (company_name request)
  /\ contains (company_name request) (user_instruction request) = true
  /\ contains (u "Consider this program design") (user_instruction request)
     = false
  /\ contains (u "Previous financial model") (user_instruction request)
     = false.
Proof.
  intros Hd Hc H1 H2.
  assert (E : user_instruction request = opening (company_name request)).
  { unfold user_instruction, existing_output_of, feedback_of.
    rewrite Hd, Hc. rewrite construct_user_prompt_clauses.
    cbn [truthy andb]. now rewrite !app_nil_r. }
  rewrite E. unfold opening. split; [reflexivity|]. split; [|split].
  - apply contains_app_r, contains_self_app.
  - rewrite contains_clear_left by reflexivity.
    now rewrite contains_never_right by reflexivity.
  - rewrite contains_clear_left by reflexivity.
    now rewrite contains_never_right by reflexivity.
Qed.

Lemma only_company_name_witness :
  user_instruction
    {| company_name := u "Acme Corp"; previous_data := None;
       current_prompt_data := None; other_input_data := Some [] |}
  = u "Please create a financial model for Acme Corp's loyalty program."
  /\ contains (u "Consider this program design")
       (user_instruction
          {| company_name := u "Acme Corp"; previous_data := None;
             current_prompt_data := None; other_input_data := Some [] |})
     = false
  /\ contains (u "Previous financial model")
       (user_instruction
          {| company_name := u "Acme Corp"; previous_data := None;
             current_prompt_data := None; other_input_data := Some [] |})
     = false.
Proof.
  pose proof (@only_company_name
                {| company_name := u "Acme Corp"; previous_data := None;
                   current_prompt_data := None;
                   other_input_data := Some [] |}
                eq_refl eq_refl eq_refl eq_refl)
    as (H1 & _ & H3 & H4).
  split; [exact H1|]. split; [exact H3 | exact H4].
Defined.




(** C9.  The endpoint answers either with a success that carries both
    parts, the analysis and the structured data, taken from one
    completion text, or with an error response (status 422 or 500) that
    carries neither. *)
Theorem all_or_nothing (rt : Runtime) (b : RequestBody) :
  (exists request text go sd,
     validate_request b = Some request
     /\ client_create rt
          (chat_request (company_name request) (program_design_of request)
             (existing_output_of request) (feedback_of request))
        = Returned (Some text)
     /\ parse_completion rt text = inr (go, JDict sd)
     /\ fst (post_generate rt b)
        = OK200 {| generated_output := go; structured_data := sd |})
  \/ ((status_of (fst (post_generate rt b)) = 422%N
       \/ status_of (fst (post_generate rt b)) = 500%N)
      /\ forall body, fst (post_generate rt b) <> OK200 body).
Proof.
  unfold post_generate.
  destruct (validate_request b) as [request|];
    [|right; split; [now left | discriminate]].
  rewrite generate_model_response.
  destruct (client_create rt _) as [m | [text|]] eqn:C;
    try (right; split; [now right | discriminate]).
  destruct (parse_completion rt text) as [[c d] | [go v]] eqn:P.
  - right. split; [now right | discriminate].
  - destruct v; try (right; split; [now right | discriminate]).
    destruct (no_surrogate go && encodable (JDict pairs));
      [|right; split; [now right | discriminate]].
    left. exists request, text, go, pairs. repeat split; assumption.
Qed.

(** C10.  [other_input_data] has no influence: two requests that
    differ in nothing else give the same user instruction (the system
    instruction is a constant), the same provider call and, from the
    same completion, the same response. *)
Theorem other_input_data_ignored (rt : Runtime)
    (r1 r2 : FinancialModelRequest) :
  company_name r1 = company_name r2 ->
  previous_data r1 = previous_data r2 ->
  current_prompt_data r1 = current_prompt_data r2 ->
  user_instruction r1 = user_instruction r2
  /\ snd (generate_model rt r1) = snd (generate_model rt r2)
  /\ fst (generate_model rt r1) = fst (generate_model rt r2).
Proof.
  intros Hn Hp Hc.
  assert (E : user_instruction r1 = user_instruction r2).
  { unfold user_instruction, program_design_of, existing_output_of,
      feedback_of. now rewrite Hn, Hp, Hc. }
  split; [exact E|]. split.
  - now rewrite !generate_model_calls, E.
  - rewrite !generate_model_response.
    unfold program_design_of, existing_output_of, feedback_of.
    now rewrite Hn, Hp, Hc.
Qed.

Lemma other_input_data_ignored_witness :
  generate_model (mock_runtime (uq "ok[JSON_START]{`a`:1}[JSON_END]"))
    {| company_name := u "Acme Corp"; previous_data := None;
       current_prompt_data := None; other_input_data := Some [] |}
  = generate_model (mock_runtime (uq "ok[JSON_START]{`a`:1}[JSON_END]"))
      {| company_name := u "Acme Corp"; previous_data := None;
         current_prompt_data := None;
         other_input_data := Some [(u "region", JStr (u "EU"))] |}.
Proof.
  pose proof (@other_input_data_ignored
                (mock_runtime (uq "ok[JSON_START]{`a`:1}[JSON_END]"))
                {| company_name := u "Acme Corp"; previous_data := None;
                   current_prompt_data := None;
                   other_input_data := Some [] |}
                {| company_name := u "Acme Corp"; previous_data := None;
                   current_prompt_data := None;
                   other_input_data := Some [(u "region", JStr (u "EU"))] |}
                eq_refl eq_refl eq_refl) as (_ & H2 & H3).
  apply injective_projections; [exact H3 | exact H2].
Defined.

(** ** Further facts on strings *)

Module TrimFacts.

Lemma startswith_app_l (m s z : str) :
  startswith m s = true -> startswith m (s ++ z) = true.
Proof.
  revert s. induction m as [|a m IH]; intros s H; [reflexivity|].
  destruct s as [|b s]; [discriminate|]. simpl in *.
  apply andb_prop in H. destruct H as [H1 H2]. now rewrite H1, IH.
Qed.

Lemma contains_app_l (m s z : str) :
  contains m s = true -> contains m (s ++ z) = true.
Proof.
  induction s as [|b s IH]; intros H.
  - simpl in H. rewrite orb_false_r in H.
    apply contains_here. now apply startswith_app_l.
  - cbn [app contains] in *. apply orb_prop in H. destruct H as [H | H].
    + apply (startswith_app_l _ _ z) in H. cbn [app] in H. now rewrite H.
    + rewrite (IH H). apply orb_true_r.
Qed.

(** A text that holds no [m] has no part that holds one. *)
Lemma contains_factor (m x y z : str) :
  contains m (x ++ y ++ z) = false -> contains m y = false.
Proof.
  intros H. destruct (contains m y) eqn:E; [|reflexivity].
  rewrite contains_app_r in H; [discriminate|]. now apply contains_app_l.
Qed.

Lemma lstrip_blank (b : str) : blank b -> lstrip b = [].
Proof.
  induction 1 as [|c b Hc Hb IH]; [reflexivity|]. simpl. now rewrite Hc.
Qed.

Lemma lstrip_blank_app (b s : str) : blank b -> lstrip (b ++ s) = lstrip s.
Proof.
  induction 1 as [|c b Hc Hb IH]; [reflexivity|]. simpl. now rewrite Hc.
Qed.

Lemma lstrip_app_blank (s b : str) :
  blank b ->
  lstrip (s ++ b) = match lstrip s with [] => [] | c :: t => c :: t ++ b end.
Proof.
  intros Hb. induction s as [|c s IH]; simpl.
  - now apply lstrip_blank.
  - destruct (isspace c); [assumption | reflexivity].
Qed.

Lemma lstrip_idem (s : str) : lstrip (lstrip s) = lstrip s.
Proof.
  induction s as [|c s IH]; [reflexivity|]. simpl.
  destruct (isspace c) eqn:E; [assumption|]. simpl. now rewrite E.
Qed.

Lemma rstrip_app_blank (s b : str) : blank b -> rstrip (s ++ b) = rstrip s.
Proof.
  intros Hb. unfold rstrip. rewrite rev_app_distr.
  rewrite lstrip_blank_app; [reflexivity|]. now apply Forall_rev.
Qed.

Lemma rstrip_idem (s : str) : rstrip (rstrip s) = rstrip s.
Proof. unfold rstrip. now rewrite rev_involutive, lstrip_idem. Qed.

(** [rstrip] keeps the first code point of a text it does not empty. *)
Lemma lstrip_rstrip (s : str) : lstrip (rstrip (lstrip s)) = rstrip (lstrip s).
Proof.
  destruct (rstrip_split (lstrip s)) as (b & Hb & E).
  destruct (rstrip (lstrip s)) as [|c t] eqn:R; [reflexivity|].
  destruct (lstrip s) as [|c' t'] eqn:L; [discriminate|].
  inversion E; subst c'. clear E.
  assert (Hc : isspace c = false).
  { destruct (isspace c) eqn:Hc; [|reflexivity].
    pose proof (lstrip_idem s) as I. rewrite L in I. simpl in I.
    rewrite Hc in I.
    assert (Hl : (length (lstrip t') <= length t')%nat).
    { clear. induction t' as [|a t' IH]; simpl; [lia|].
      destruct (isspace a); simpl; lia. }
    rewrite I in Hl. simpl in Hl. lia. }
  simpl. now rewrite Hc.
Qed.

Lemma strip_idem (s : str) : strip (strip s) = strip s.
Proof. unfold strip. now rewrite lstrip_rstrip, rstrip_idem. Qed.

(** Whitespace around a text is trimmed with it. *)
Lemma strip_pad (b1 s b2 : str) :
  blank b1 -> blank b2 -> strip (b1 ++ s ++ b2) = strip s.
Proof.
  intros H1 H2. unfold strip.
  rewrite lstrip_blank_app by assumption.
  rewrite lstrip_app_blank by assumption.
  destruct (lstrip s) as [|c t]; [reflexivity|].
  now rewrite app_comm_cons, rstrip_app_blank.
Qed.

(** A trimmed text is a part of the text. *)
Lemma strip_factor (s : str) : exists b1 b2, s = b1 ++ strip s ++ b2.
Proof.
  destruct (lstrip_split s) as (b1 & _ & E1).
  destruct (rstrip_split (lstrip s)) as (b2 & _ & E2).
  exists b1, b2. unfold strip. now rewrite <- E2.
Qed.

(** *** Slices *)

Lemma slice_empty (s : str) (a b : Z) :
  (0 <= b <= a)%Z -> slice s a b = [].
Proof.
  intros H. unfold slice, slice_bound. pose proof (len_nonneg s).
  destruct (Z.ltb_spec a 0); [lia|]. destruct (Z.ltb_spec b 0); [lia|].
  replace (Z.to_nat (Z.min b (len s) - Z.min a (len s))) with 0%nat by lia.
  reflexivity.
Qed.

Lemma slice_to_firstn (s : str) (b : Z) :
  slice_to s b = firstn (Z.to_nat (slice_bound b (len s))) s.
Proof.
  unfold slice_to, slice. pose proof (len_nonneg s).
  replace (slice_bound 0 (len s)) with 0%Z
    by (unfold slice_bound; simpl; lia).
  now rewrite Z.sub_0_r.
Qed.

(** [s[:-1]] is [s] without its last code point. *)
Lemma slice_to_minus_one (s : str) : slice_to s (-1) = removelast s.
Proof.
  rewrite slice_to_firstn, removelast_firstn_len. f_equal.
  unfold slice_bound, len. change (-1 <? 0)%Z with true. cbv iota.
  destruct (length s) as [|n]; [reflexivity|]. rewrite Nat.pred_succ. lia.
Qed.

(** [s[a:-1]] is the text from offset [a] on, without its last code
    point. *)
Lemma slice_minus_one (s : str) (a : Z) :
  (0 <= a)%Z -> slice s a (-1) = removelast (skipn (Z.to_nat a) s).
Proof.
  intros Ha. unfold slice. rewrite removelast_firstn_len, length_skipn.
  unfold slice_bound, len. change (-1 <? 0)%Z with true. cbv iota.
  destruct (Z.ltb_spec a 0); [lia|].
  destruct (Z.le_gt_cases a (Z.of_nat (length s))).
  - rewrite Z.min_l by lia. f_equal. lia.
  - rewrite Z.min_r by lia. rewrite Nat2Z.id.
    rewrite !skipn_all2 by lia. now rewrite !firstn_nil.
Qed.

(** *** First occurrence *)

Lemma startswith_firstn (m s : str) (k : nat) :
  startswith m (firstn k s) = true -> startswith m s = true.
Proof.
  intros H. rewrite <- (firstn_skipn k s). now apply startswith_app_l.
Qed.

(** No occurrence of a non-empty [m] lies before the index [find]
    answers. *)
Lemma contains_before_find (m s : str) (i : Z) :
  m <> [] -> (0 <= i)%Z -> (i <= find_from m s i)%Z ->
  contains m (firstn (Z.to_nat (find_from m s i - i)) s) = false.
Proof.
  intros Hm. revert i. induction s as [|c s IH]; intros i H0 H.
  - rewrite firstn_nil. destruct m; [congruence | reflexivity].
  - cbn [find_from] in *.
    destruct (startswith m (c :: s)) eqn:E.
    + rewrite Z.sub_diag. simpl. destruct m; [congruence | reflexivity].
    + pose proof (find_from_bounds m s (i + 1)) as B.
      assert (Hi : (i + 1 <= find_from m s (i + 1))%Z)
        by (destruct (contains m s); lia).
      replace (Z.to_nat (find_from m s (i + 1) - i))
        with (S (Z.to_nat (find_from m s (i + 1) - (i + 1)))) by lia.
      cbn [firstn contains]. rewrite IH by lia. rewrite orb_false_r.
      destruct (startswith m (c :: firstn _ s)) eqn:F; [|reflexivity].
      rewrite (startswith_firstn m (c :: s) (S _) F) in E. discriminate.
Qed.

(** An occurrence inside [a] is found at an index inside [a], whatever
    follows. *)
Lemma find_from_within (m a z : str) (i : Z) :
  contains m a = true ->
  (i <= find_from m (a ++ z) i <= i + len a)%Z.
Proof.
  revert i. induction a as [|c a IH]; intros i H.
  - simpl in H. rewrite orb_false_r in H.
    rewrite find_from_here by now apply startswith_app_l.
    unfold len. simpl. lia.
  - cbn [app find_from].
    destruct (startswith m (c :: a ++ z)) eqn:E.
    + unfold len. cbn [length]. lia.
    + cbn [contains] in H. apply orb_prop in H. destruct H as [H | H].
      * apply (startswith_app_l _ _ z) in H. cbn [app] in H. congruence.
      * specialize (IH (i + 1)%Z H). unfold len in *. cbn [length]. lia.
Qed.

End TrimFacts.

(** ** Further properties of the service *)

Module MoreServiceFacts.
Import TrimFacts.

(** The parser's answer on [A + "[JSON_START]" + J + "[JSON_END]" + rest],
    with no marker in [A] and no end marker in [J], whether or not [J]
    is valid JSON. *)
Lemma parse_completion_between (rt : Runtime) (A J rest : str) :
  contains start_marker A = false ->
  contains end_marker A = false ->
  contains end_marker J = false ->
  parse_completion rt (A ++ start_marker ++ J ++ end_marker ++ rest)
  = match loads (json_limits rt) (strip J) with
    | Some v => inr (strip A, v)
    | None =>
        inl (HTTPException 500
               (u "Failed to parse structured data from response: "
                  ++ decode_error_str rt (strip J)))
    end.
Proof.
  intros HS HA HJ. unfold parse_completion, extract_json_from_text.
  rewrite json_str_between by assumption.
  change (u "[JSON_START]") with start_marker.
  rewrite find_start by assumption. rewrite slice_to_prefix.
  now destruct (loads (json_limits rt) (strip J)).
Qed.

(** A success response comes from a validated request, a returned
    completion text, and a successful parse of that text. *)
Lemma ok_response_parts (rt : Runtime) (b : RequestBody)
    (body : FinancialModelResponse) :
  fst (post_generate rt b) = OK200 body ->
  exists text,
    parse_completion rt text
    = inr (generated_output body, JDict (structured_data body)).
Proof.
  unfold post_generate.
  destruct (validate_request b) as [request|]; [|discriminate].
  rewrite generate_model_response.
  destruct (client_create rt _) as [m | [text|]]; try discriminate.
  destruct (parse_completion rt text) as [e | [go v]] eqn:P;
    [discriminate|].
  destruct v; try discriminate.
  destruct (no_surrogate go && encodable (JDict pairs)); [|discriminate].
  intros H. inversion H; subst. now exists text.
Qed.

(** The analysis taken from a completion text never holds the start
    marker. *)
Lemma analysis_without_start_marker (text : str) :
  contains start_marker
    (strip (slice_to text (find text start_marker))) = false.
Proof.
  destruct (strip_factor (slice_to text (find text start_marker)))
    as (b1 & b2 & E).
  apply (contains_factor start_marker b1 _ b2). rewrite <- E. clear E.
  pose proof (find_from_bounds start_marker text 0) as B. fold (find text
    start_marker) in B.
  destruct (contains start_marker text) eqn:C.
  - rewrite slice_to_firstn. unfold slice_bound.
    destruct (Z.ltb_spec (find text start_marker) 0); [lia|].
    rewrite Z.min_l by lia.
    pose proof (@contains_before_find start_marker text 0) as F.
    rewrite Z.sub_0_r in F. apply F; [discriminate | lia | ].
    fold (find text start_marker). lia.
  - rewrite slice_to_firstn.
    apply (contains_factor start_marker []
             _ (skipn (Z.to_nat (slice_bound (find text start_marker)
                                   (len text))) text)).
    cbn [app]. now rewrite firstn_skipn.
Qed.

End MoreServiceFacts.
Import TrimFacts MoreServiceFacts.

(** X3.  When the first end marker does not come after the end of the
    first start marker (it comes before the start marker, or right
    after it), the slice between them is empty and the request fails
    with the parse error, status 500. *)
Theorem end_marker_first_fails (rt : Runtime)
    (request : FinancialModelRequest) (text : str) :
  client_create rt
    (chat_request (company_name request) (program_design_of request)
       (existing_output_of request) (feedback_of request))
  = Returned (Some text) ->
  (0 <= find text end_marker)%Z ->
  (find text end_marker <= find text start_marker + len start_marker)%Z ->
  fst (generate_model rt request)
  = HTTPError 500
      (u "500: Failed to parse structured data from response: "
         ++ decode_error_str rt []).
Proof.
  intros C H0 H1. rewrite generate_model_response, C.
  unfold parse_completion, extract_json_from_text, json_str.
  rewrite slice_empty by lia. reflexivity.
Qed.

Lemma end_marker_first_fails_witness :
  fst (generate_model
         (mock_runtime (uq "[JSON_END]{`a`:1}[JSON_START]"))
         {| company_name := u "Acme Corp"; previous_data := None;
            current_prompt_data := None; other_input_data := Some [] |})
  = HTTPError 500
      (u "500: Failed to parse structured data from response: "
         ++ u "Expecting value: line 1 column 1 (char 0)").
Proof.
  exact (@end_marker_first_fails
           (mock_runtime (uq "[JSON_END]{`a`:1}[JSON_START]"))
           {| company_name := u "Acme Corp"; previous_data := None;
              current_prompt_data := None; other_input_data := Some [] |}
           (uq "[JSON_END]{`a`:1}[JSON_START]")
           eq_refl ltac:(vm_compute; discriminate)
           ltac:(vm_compute; discriminate)).
Defined.

(** X4.  Whatever follows the first end marker is ignored: with no
    marker in [A] and no end marker in [J], the parser answers the same
    on [A + "[JSON_START]" + J + "[JSON_END]" + rest] as without
    [rest], be [J] valid JSON or not. *)
Theorem text_after_end_marker_ignored (rt : Runtime) (A J rest : str) :
  contains start_marker A = false ->
  contains end_marker A = false ->
  contains end_marker J = false ->
  parse_completion rt (A ++ start_marker ++ J ++ end_marker ++ rest)
  = parse_completion rt (A ++ start_marker ++ J ++ end_marker).
Proof.
  intros HS HA HJ.
  rewrite parse_completion_between by assumption.
  rewrite <- (app_nil_r end_marker).
  now rewrite parse_completion_between by assumption.
Qed.

Lemma text_after_end_marker_ignored_witness :
  parse_completion (mock_runtime [])
    (uq "Plan [JSON_START]{`a`:1}[JSON_END] Thanks! [JSON_END]")
  = parse_completion (mock_runtime [])
      (uq "Plan [JSON_START]{`a`:1}[JSON_END]").
Proof.
  exact (@text_after_end_marker_ignored (mock_runtime []) (u "Plan ")
           (uq "{`a`:1}") (u " Thanks! [JSON_END]")
           eq_refl eq_refl eq_refl).
Defined.

(** X5.  Whitespace around the JSON segment, in the sense of
    [str.strip] (also code points that are not JSON whitespace, such as
    a no-break space), is trimmed before decoding: the parser answers
    the same with and without it. *)
Theorem padded_json_segment (rt : Runtime) (A b1 J b2 : str) :
  contains start_marker A = false ->
  contains end_marker A = false ->
  contains end_marker (b1 ++ J ++ b2) = false ->
  blank b1 -> blank b2 ->
  parse_completion rt
    (A ++ start_marker ++ (b1 ++ J ++ b2) ++ end_marker)
  = parse_completion rt (A ++ start_marker ++ J ++ end_marker).
Proof.
  intros HS HA HP H1 H2.
  rewrite <- (app_nil_r end_marker).
  rewrite !parse_completion_between; try assumption.
  - now rewrite strip_pad.
  - now apply (contains_factor end_marker b1 J b2).
Qed.

Lemma padded_json_segment_witness :
  parse_completion (mock_runtime [])
    (u "Plan[JSON_START]" ++ [160%N; 10%N] ++ uq "{`a`:1}" ++ [11%N]
       ++ u "[JSON_END]")
  = inr (u "Plan", JDict [(u "a", JInt 1)]).
Proof.
  exact (@padded_json_segment (mock_runtime []) (u "Plan")
           [160%N; 10%N] (uq "{`a`:1}") [11%N]
           eq_refl eq_refl eq_refl
           ltac:(repeat constructor) ltac:(repeat constructor)).
Defined.

(** X6.  The [generated_output] of a success response never holds the
    start marker: it is cut before the first one. *)
Theorem generated_output_without_start_marker (rt : Runtime)
    (b : RequestBody) (body : FinancialModelResponse) :
  fst (post_generate rt b) = OK200 body ->
  contains start_marker (generated_output body) = false.
Proof.
  intros H. destruct (ok_response_parts _ _ H) as (text & P).
  unfold parse_completion in P.
  destruct (extract_json_from_text rt text); [discriminate|].
  inversion P as [[G V]]. apply analysis_without_start_marker.
Qed.

Lemma generated_output_without_start_marker_witness :
  contains start_marker (u "Plan A") = false.
Proof.
  exact (@generated_output_without_start_marker
           (mock_runtime
              (uq " Plan A [JSON_START]{`a`:1}[JSON_END][JSON_START]"))
           (body_of_name (u "Acme Corp"))
           {| generated_output := u "Plan A";
              structured_data := [(u "a", JInt 1)] |}
           eq_refl).
Defined.

(** X7.  The [generated_output] of a success response has no leading
    and no trailing whitespace: trimming it again changes nothing. *)
Theorem generated_output_trimmed (rt : Runtime)
    (b : RequestBody) (body : FinancialModelResponse) :
  fst (post_generate rt b) = OK200 body ->
  strip (generated_output body) = generated_output body.
Proof.
  intros H. destruct (ok_response_parts _ _ H) as (text & P).
  unfold parse_completion in P.
  destruct (extract_json_from_text rt text); [discriminate|].
  inversion P as [[G V]]. apply strip_idem.
Qed.

Lemma generated_output_trimmed_witness :
  strip (u "Plan A") = u "Plan A".
Proof.
  exact (@generated_output_trimmed
           (mock_runtime (uq " Plan A [JSON_START]{`a`:1}[JSON_END]"))
           (body_of_name (u "Acme Corp"))
           {| generated_output := u "Plan A";
              structured_data := [(u "a", JInt 1)] |}
           eq_refl).
Defined.

(** X8.  A design that is absent or empty adds nothing to the user
    instruction; a non-empty design puts its clause right after the
    opening sentence, before any refinement clause. *)
Theorem design_clause_placement (request : FinancialModelRequest) :
  (truthy (program_design_of request) = false ->
   user_instruction request
   = construct_user_prompt (company_name request) None
       (existing_output_of request) (feedback_of request))
  /\ (forall d, program_design_of request = Some d -> d <> [] ->
      startswith (opening (company_name request) ++ design_clause d)
        (user_instruction request) = true).
Proof.
  unfold user_instruction. split.
  - intros T. rewrite !construct_user_prompt_clauses. now rewrite T.
  - intros d E Hd. rewrite E, construct_user_prompt_clauses.
    destruct d as [|c d]; [congruence|]. cbn [truthy fmt].
    rewrite app_assoc. apply startswith_app.
Qed.

Lemma design_clause_placement_witness :
  user_instruction
    {| company_name := u "Acme"; 
       previous_data := Some {| loyalty_program_design := Some [] |};
       current_prompt_data := None; other_input_data := Some [] |}
  = u "Please create a financial model for Acme's loyalty program."
  /\ startswith
       (opening (u "Acme") ++ design_clause (u "tiers"))
       (user_instruction
          {| company_name := u "Acme";
             previous_data :=
               Some {| loyalty_program_design := Some (u "tiers") |};
             current_prompt_data :=
               Some {| existing_generated_output := u "old";
                       user_feedback := u "shorter" |};
             other_input_data := Some [] |}) = true.
Proof.
  split.
  - exact (proj1 (@design_clause_placement
             {| company_name := u "Acme";
                previous_data := Some {| loyalty_program_design := Some [] |};
                current_prompt_data := None;
                other_input_data := Some [] |}) eq_refl).
  - refine (proj2 (@design_clause_placement
             {| company_name := u "Acme";
                previous_data :=
                  Some {| loyalty_program_design := Some (u "tiers") |};
                current_prompt_data :=
                  Some {| existing_generated_output := u "old";
                          user_feedback := u "shorter" |};
                other_input_data := Some [] |}) (u "tiers") eq_refl _).
    vm_compute. discriminate.
Defined.

(** X9.  For every request, the user instruction starts with the
    opening sentence built around the company name, and so contains
    the company name as it was sent. *)
Theorem opening_sentence_always (request : FinancialModelRequest) :
  startswith (opening (company_name request)) (user_instruction request)
  = true
  /\ contains (company_name request) (user_instruction request) = true.
Proof.
  unfold user_instruction. rewrite construct_user_prompt_clauses. split.
  - apply startswith_app.
  - unfold opening. rewrite <- !app_assoc.
    apply contains_app_r, contains_self_app.
Qed.

(** X10.  On a completion text without the start marker, [str.find]
    answers [-1]: the analysis is the text without its last code point,
    trimmed, and the JSON segment is read from offset 11 up to the end
    marker. *)
Theorem missing_start_marker_slices (rt : Runtime) (text : str) :
  let segment := strip (slice text 11 (find text end_marker)) in
  contains start_marker text = false ->
  parse_completion rt text
  = match loads (json_limits rt) segment with
    | Some v => inr (strip (removelast text), v)
    | None =>
        inl (HTTPException 500
               (u "Failed to parse structured data from response: "
                  ++ decode_error_str rt segment))
    end.
Proof.
  intros segment C.
  pose proof (find_from_bounds start_marker text 0) as B.
  rewrite C in B. fold (find text start_marker) in B.
  unfold parse_completion, extract_json_from_text, json_str.
  change (u "[JSON_START]") with start_marker. rewrite B.
  change (-1 + len start_marker)%Z with 11%Z. fold segment.
  rewrite slice_to_minus_one.
  now destruct (loads (json_limits rt) segment).
Qed.

Lemma missing_start_marker_slices_witness :
  parse_completion (mock_runtime []) (uq "No markers here, sorry.")
  = inl (HTTPException 500
           (u "Failed to parse structured data from response: "
              ++ u "Expecting value: line 1 column 1 (char 0)")).
Proof.
  exact (@missing_start_marker_slices (mock_runtime [])
           (uq "No markers here, sorry.") eq_refl).
Defined.

(** X11.  On a completion text without the end marker, [str.find]
    answers [-1] for it: the JSON segment is the text after the start
    marker without its last code point, trimmed. *)
Theorem missing_end_marker_slices (rt : Runtime) (text : str) :
  let after :=
    skipn (Z.to_nat (find text start_marker + len start_marker)) text in
  let segment := strip (removelast after) in
  contains end_marker text = false ->
  extract_json_from_text rt text
  = match loads (json_limits rt) segment with
    | Some v => inr v
    | None =>
        inl (HTTPException 500
               (u "Failed to parse structured data from response: "
                  ++ decode_error_str rt segment))
    end.
Proof.
  intros after segment C.
  pose proof (find_from_bounds end_marker text 0) as B.
  rewrite C in B. fold (find text end_marker) in B.
  pose proof (find_from_bounds start_marker text 0) as S.
  fold (find text start_marker) in S.
  unfold extract_json_from_text, json_str. rewrite B.
  rewrite slice_minus_one.
  - fold after segment. now destruct (loads (json_limits rt) segment).
  - change (len start_marker) with 12%Z.
    destruct (contains start_marker text); lia.
Qed.

Lemma missing_end_marker_slices_witness :
  extract_json_from_text
    (mock_runtime_saying []
       "Expecting ',' delimiter: line 1 column 7 (char 6)")
    (uq "Plan[JSON_START]{`a`:1}")
  = inl (HTTPException 500
           (u "Failed to parse structured data from response: "
              ++ u "Expecting ',' delimiter: line 1 column 7 (char 6)")).
Proof.
  exact (@missing_end_marker_slices
           (mock_runtime_saying []
              "Expecting ',' delimiter: line 1 column 7 (char 6)")
           (uq "Plan[JSON_START]{`a`:1}") eq_refl).
Defined.

(** X12.  An end marker in the text before the first start marker makes
    the request fail with the parse error: the end marker is searched
    from the start of the text, so the slice between the markers is
    empty. *)
Theorem end_marker_in_analysis_fails (rt : Runtime)
    (request : FinancialModelRequest) (A rest : str) :
  contains start_marker A = false ->
  contains end_marker A = true ->
  client_create rt
    (chat_request (company_name request) (program_design_of request)
       (existing_output_of request) (feedback_of request))
  = Returned (Some (A ++ start_marker ++ rest)) ->
  fst (generate_model rt request)
  = HTTPError 500
      (u "500: Failed to parse structured data from response: "
         ++ decode_error_str rt []).
Proof.
  intros HS HE C. rewrite generate_model_response, C.
  unfold parse_completion, extract_json_from_text, json_str.
  rewrite find_start by assumption.
  pose proof (find_from_within end_marker A (start_marker ++ rest) 0 HE)
    as B.
  fold (find (A ++ start_marker ++ rest) end_marker) in B.
  pose proof (len_nonneg start_marker).
  rewrite slice_empty by lia. reflexivity.
Qed.

Lemma end_marker_in_analysis_fails_witness :
  fst (generate_model
         (mock_runtime
            (uq "The [JSON_END] tag ends it.[JSON_START]{`a`:1}[JSON_END]"))
         {| company_name := u "Acme Corp"; previous_data := None;
            current_prompt_data := None; other_input_data := Some [] |})
  = HTTPError 500
      (u "500: Failed to parse structured data from response: "
         ++ u "Expecting value: line 1 column 1 (char 0)").
Proof.
  exact (@end_marker_in_analysis_fails
           (mock_runtime
              (uq "The [JSON_END] tag ends it.[JSON_START]{`a`:1}[JSON_END]"))
           {| company_name := u "Acme Corp"; previous_data := None;
              current_prompt_data := None; other_input_data := Some [] |}
           (u "The [JSON_END] tag ends it.") (uq "{`a`:1}[JSON_END]")
           eq_refl eq_refl eq_refl).
Defined.
